(** * PlanetCamera (og/camera/PlanetCamera): geodetic tracking, altitude
      control and the flight planner / executor of the globe camera.

    The embedding follows the source of [PlanetCamera] method by method.
    JavaScript numbers are read as real numbers (no NaN, no infinities, no
    rounding); optional arguments ([look], [up], callbacks) are [option]s;
    objects mutated through [this] become fields of an explicit state that
    every method threads.  Calls made on collaborators (the three locks, the
    view-change event, user callbacks) are recorded in a chronological
    trace next to the state. *)

From Stdlib Require Import Reals Lra Lia ZArith.
From stdpp Require Import base gmap list.

Open Scope R_scope.

(** ** Vectors *)

(** Modelled from the spec: og/math/Vec3 is not among the sources.  The
    spec takes the usual 3D primitives as given; they are written here
    componentwise the way the planner uses them.  [normalize] multiplies by
    the reciprocal of the length; on a vector without length the source
    gets undefined components, where the reals here, with [1 / 0 = 0],
    give the zero vector, so that what is stated of a normalized vector
    is stated for a vector with a length.  [smerp] is the linear blend taking
    weight [d] on the receiver and [1 - d] on the argument: this is the
    weighting of the height blend in the planner's loop, where [d] weighs
    the start height. *)
Module Vec3.

Record t : Type := mk { x : R; y : R; z : R }.

Definition ZERO : t := mk 0 0 0.
Definition UP : t := mk 0 1 0.

Definition add (a b : t) : t := mk (x a + x b) (y a + y b) (z a + z b).
Definition sub (a b : t) : t := mk (x a - x b) (y a - y b) (z a - z b).
Definition scale (a : t) (k : R) : t := mk (x a * k) (y a * k) (z a * k).
Definition negateTo (a : t) : t := mk (- x a) (- y a) (- z a).
Definition dot (a b : t) : R := x a * x b + y a * y b + z a * z b.
Definition cross (a b : t) : t :=
  mk (y a * z b - z a * y b) (z a * x b - x a * z b) (x a * y b - y a * x b).
Definition length (a : t) : R := sqrt (x a * x a + y a * y a + z a * z a).
Definition normalize (a : t) : t :=
  let l := 1 / length a in mk (x a * l) (y a * l) (z a * l).
(** [normal] is the non-mutating [normalize]. *)
Definition normal (a : t) : t := normalize a.
Definition smerp (a b : t) (d : R) : t :=
  let one_d := 1 - d in
  mk (x a * d + x b * one_d) (y a * d + y b * one_d) (z a * d + z b * one_d).

End Vec3.

(** ** Geodetic coordinates *)

(** Modelled from the spec: og/LonLat is not among the sources; a geodetic
    position is longitude, latitude and height, the height of a position
    built without one being 0. *)
Module LonLat.

Record t : Type := mk { lon : R; lat : R; height : R }.

Definition set (lon lat height : R) : t := mk lon lat height.

End LonLat.

(** [a || b] on numbers: [a] unless it is falsy, that is 0. *)
Definition or_number (a b : R) : R := if Req_dec_T a 0 then b else a.

(** ** Collaborators *)

Record Ray : Type := mkRay { origin : Vec3.t; direction : Vec3.t }.

Record Ellipsoid : Type := mkEllipsoid {
  cartesianToLonLat : Vec3.t -> LonLat.t;
  lonLatToCartesian : LonLat.t -> Vec3.t
}.

(** A lock key is the identifier handed out by [new Key()]. *)
Definition Key : Type := nat.

(** Modelled from the spec: og/Lock is not among the sources.  A lock is a
    gate claimed by tokens: [lock] adds the token to the claims, [free]
    withdraws it, and the gate is free when nobody claims it. *)
Module Lock.

Definition t : Type := gset Key.

Definition lock (l : t) (k : Key) : t := {[ k ]} ∪ l.
Definition free (l : t) (k : Key) : t := l ∖ {[ k ]}.
Definition isFree (l : t) : bool := bool_decide (l = ∅).

End Lock.

Inductive Subsystem : Type := LayerLock | TerrainLock | NormalMapCreator.

#[global] Instance Subsystem_eq_dec : EqDecision Subsystem.
Proof. solve_decision. Defined.

(** The planet as the camera sees it: its ellipsoid, the ray/ellipsoid
    intersection (taken to answer every ray that leaves the centre) and the
    three lockable subsystems. *)
Record Planet : Type := mkPlanet {
  ellipsoid : Ellipsoid;
  getRayIntersectionEllipsoid : Ray -> Vec3.t;
  layerLock : Lock.t;
  terrainLock : Lock.t;
  _normalMapCreator : Lock.t
}.

(** The quad node the camera is over.  [getTerrainPoint] answers the
    altitude and leaves the local position and the terrain point it wrote
    into its out-arguments. *)
Record Node : Type := mkNode {
  getTerrainPoint : Vec3.t -> LonLat.t -> Vec3.t -> R * LonLat.t * Vec3.t
}.

(** ** Flight plan and callbacks *)

Record Frame : Type := mkFrame {
  f_eye : Vec3.t;
  f_n : Vec3.t;
  f_u : Vec3.t;
  f_v : Vec3.t
}.

(** The [look] argument of a flight: a Cartesian point or a [LonLat]. *)
Inductive Look : Type :=
| LookCartesian (p : Vec3.t)
| LookLonLat (ll : LonLat.t).

(** User callbacks are closures over the camera.  The ones considered here
    report that they ran (their [tag] goes to the trace) and then either
    return, or stop the flight, or ask the camera for another flight.
    A callback that set the pose, the altitude or the frame count itself
    is not among them: what is proved of callbacks is proved of these
    three shapes. *)
#[warnings="-register-all"]
Inductive Callback : Type :=
| CbNotify (tag : nat)
| CbStopFlying (tag : nat)
| CbFlyCartesian (tag : nat) (cartesian : Vec3.t) (look : option Look)
    (up : option Vec3.t) (completeCallback startCallback : option Callback).

Inductive Event : Type :=
| EvLock (s : Subsystem) (k : Key)
| EvFree (s : Subsystem) (k : Key)
| EvCallback (tag : nat)
| EvViewChange.

(** ** Camera state *)

Record Camera : Type := mkCamera {
  eye : Vec3.t;
  _u : Vec3.t;
  _v : Vec3.t;
  _n : Vec3.t;
  minAltitude : R;
  _lonLat : LonLat.t;
  _lonLatMerc : LonLat.t;
  _terrainAltitude : R;
  _terrainPoint : Vec3.t;
  _insideSegment : option Node;
  slope : R;
  eyeNorm : Vec3.t;
  _insideSegmentPosition : LonLat.t;
  _keyLock : Key;
  _framesArr : list Frame;
  _framesCounter : Z;
  _numFrames : nat;
  _completeCallback : option Callback;
  _flying : bool
}.

Record World : Type := mkWorld {
  cam : Camera;
  planet : Planet;
  trace : list Event
}.

Definition with_cam (w : World) (c : Camera) : World :=
  mkWorld c (planet w) (trace w).

Definition emit (e : Event) (w : World) : World :=
  mkWorld (cam w) (planet w) (trace w ++ [e]).

(** Field updates of the camera, one per assigned field. *)
Definition set_pose (c : Camera) (e u v n : Vec3.t) : Camera :=
  mkCamera e u v n (minAltitude c) (_lonLat c) (_lonLatMerc c)
    (_terrainAltitude c) (_terrainPoint c) (_insideSegment c) (slope c)
    (eyeNorm c) (_insideSegmentPosition c) (_keyLock c) (_framesArr c)
    (_framesCounter c) (_numFrames c) (_completeCallback c) (_flying c).

Definition set_eye (c : Camera) (e : Vec3.t) : Camera :=
  set_pose c e (_u c) (_v c) (_n c).

Definition set_lonLat (c : Camera) (ll : LonLat.t) : Camera :=
  mkCamera (eye c) (_u c) (_v c) (_n c) (minAltitude c) ll (_lonLatMerc c)
    (_terrainAltitude c) (_terrainPoint c) (_insideSegment c) (slope c)
    (eyeNorm c) (_insideSegmentPosition c) (_keyLock c) (_framesArr c)
    (_framesCounter c) (_numFrames c) (_completeCallback c) (_flying c).

Definition set_lonLatMerc (c : Camera) (ll : LonLat.t) : Camera :=
  mkCamera (eye c) (_u c) (_v c) (_n c) (minAltitude c) (_lonLat c) ll
    (_terrainAltitude c) (_terrainPoint c) (_insideSegment c) (slope c)
    (eyeNorm c) (_insideSegmentPosition c) (_keyLock c) (_framesArr c)
    (_framesCounter c) (_numFrames c) (_completeCallback c) (_flying c).

Definition set_terrain (c : Camera) (alt : R) (pos : LonLat.t)
    (pt : Vec3.t) : Camera :=
  mkCamera (eye c) (_u c) (_v c) (_n c) (minAltitude c) (_lonLat c)
    (_lonLatMerc c) alt pt (_insideSegment c) (slope c) (eyeNorm c) pos
    (_keyLock c) (_framesArr c) (_framesCounter c) (_numFrames c)
    (_completeCallback c) (_flying c).

Definition set_terrainAltitude (c : Camera) (alt : R) : Camera :=
  set_terrain c alt (_insideSegmentPosition c) (_terrainPoint c).

Definition set_slope (c : Camera) (en : Vec3.t) (s : R) : Camera :=
  mkCamera (eye c) (_u c) (_v c) (_n c) (minAltitude c) (_lonLat c)
    (_lonLatMerc c) (_terrainAltitude c) (_terrainPoint c)
    (_insideSegment c) s en (_insideSegmentPosition c) (_keyLock c)
    (_framesArr c) (_framesCounter c) (_numFrames c) (_completeCallback c)
    (_flying c).

Definition set_flight (c : Camera) (frames : list Frame) (counter : Z)
    (flying : bool) : Camera :=
  mkCamera (eye c) (_u c) (_v c) (_n c) (minAltitude c) (_lonLat c)
    (_lonLatMerc c) (_terrainAltitude c) (_terrainPoint c)
    (_insideSegment c) (slope c) (eyeNorm c) (_insideSegmentPosition c)
    (_keyLock c) frames counter (_numFrames c) (_completeCallback c) flying.

Definition set_framesCounter (c : Camera) (counter : Z) : Camera :=
  set_flight c (_framesArr c) counter (_flying c).

Definition set_completeCallback (c : Camera) (cb : option Callback) : Camera :=
  mkCamera (eye c) (_u c) (_v c) (_n c) (minAltitude c) (_lonLat c)
    (_lonLatMerc c) (_terrainAltitude c) (_terrainPoint c)
    (_insideSegment c) (slope c) (eyeNorm c) (_insideSegmentPosition c)
    (_keyLock c) (_framesArr c) (_framesCounter c) (_numFrames c) cb
    (_flying c).

(** Lock and free calls on the planet's subsystems, each leaving its mark
    in the trace. *)
Definition lock_all (w : World) : World :=
  let k := _keyLock (cam w) in
  let p := planet w in
  mkWorld (cam w)
    (mkPlanet (ellipsoid p) (getRayIntersectionEllipsoid p)
       (Lock.lock (layerLock p) k) (Lock.lock (terrainLock p) k)
       (Lock.lock (_normalMapCreator p) k))
    (trace w ++ [EvLock LayerLock k; EvLock TerrainLock k;
                 EvLock NormalMapCreator k]).

Definition free_all (w : World) : World :=
  let k := _keyLock (cam w) in
  let p := planet w in
  mkWorld (cam w)
    (mkPlanet (ellipsoid p) (getRayIntersectionEllipsoid p)
       (Lock.free (layerLock p) k) (Lock.free (terrainLock p) k)
       (Lock.free (_normalMapCreator p) k))
    (trace w ++ [EvFree LayerLock k; EvFree TerrainLock k;
                 EvFree NormalMapCreator k]).

(** ** The methods of PlanetCamera *)

(** og/mercator and [LonLat.forwardMercator] are not among the sources: the
    bound of the mercator band and the projection are taken as given. *)
Class Mercator : Type := mkMercator {
  MAX_LAT : R;
  forwardMercator : LonLat.t -> LonLat.t
}.

Section PlanetCamera.

Context {merc : Mercator}.

(** math.SQRT_HALF.  Modelled from the spec: og/math is not among the
    sources; the bulge factor is [sqrt (max sep 0 / 2)], so the constant
    is the square root of one half. *)
Definition SQRT_HALF : R := sqrt (1 / 2).

Definition updateGeodeticPosition (p : Planet) (c : Camera) : Camera :=
  let c := set_lonLat c (cartesianToLonLat (ellipsoid p) (eye c)) in
  if Rle_dec (Rabs (LonLat.lat (_lonLat c))) MAX_LAT
  then set_lonLatMerc c (forwardMercator (_lonLat c))
  else c.

(** [update]: the view, projection-view and normal matrices of the base
    camera are derived data that no method below reads; the geodetic
    position, [eyeNorm], [slope] and the view-change event remain. *)
Definition update (w : World) : World :=
  let c := updateGeodeticPosition (planet w) (cam w) in
  let en := Vec3.normal (eye c) in
  let c := set_slope c en (Vec3.dot (_n c) en) in
  emit EvViewChange (with_cam w c).

Definition setAltitude (w : World) (alt : R) : World :=
  let c := cam w in
  let n := Vec3.normal (eye c) in
  let t := _terrainPoint c in
  let c := set_eye c
             (Vec3.mk (Vec3.x n * alt + Vec3.x t) (Vec3.y n * alt + Vec3.y t)
                (Vec3.z n * alt + Vec3.z t)) in
  let c := set_terrainAltitude c alt in
  update (with_cam w c).

Definition getAltitude (w : World) : R := _terrainAltitude (cam w).

Definition getLonLat (w : World) : LonLat.t := _lonLat (cam w).

Definition getHeight (w : World) : R := LonLat.height (_lonLat (cam w)).

Definition isFlying (w : World) : bool := _flying (cam w).

Definition stopFlying (w : World) : World :=
  let w := free_all w in
  with_cam w (set_flight (cam w) [] (-1)%Z false).

(** Modelled from the spec: og/camera/Camera is not among the sources.
    [set] rebuilds the pose from eye, look target and up vector:
    [n = normalize (eye - look)], [u = normalize (up x n)], [v = n x u];
    [refresh] ends in [update]. *)
Definition set (c : Camera) (e look up : Vec3.t) : Camera :=
  let n := Vec3.sub e look in
  let u := Vec3.cross up n in
  let n := Vec3.normalize n in
  let u := Vec3.normalize u in
  set_pose c e u (Vec3.cross n u) n.

Definition refresh (w : World) : World := update w.

Definition setLonLat (w : World) (lonlat : LonLat.t)
    (lookLonLat : option LonLat.t) (up : option Vec3.t) : World :=
  let w := stopFlying w in
  let c := cam w in
  let c := set_lonLat c
             (LonLat.set (LonLat.lon lonlat) (LonLat.lat lonlat)
                (or_number (LonLat.height lonlat)
                   (LonLat.height (_lonLat c)))) in
  let el := ellipsoid (planet w) in
  let newEye := lonLatToCartesian el (_lonLat c) in
  let newLook := match lookLonLat with
                 | Some ll => lonLatToCartesian el ll
                 | None => Vec3.ZERO
                 end in
  let c := set c newEye newLook (default Vec3.UP up) in
  refresh (with_cam w c).

(** The centre of a viewable extent with its defensive check: lines
    226-253 of [getExtentPosition].  The corners are built at height 0. *)
Record Extent : Type := mkExtent {
  getNorth : R;
  getSouth : R;
  getEast : R;
  getWest : R
}.

Definition getExtentCenter (p : Planet) (extent : Extent) : Vec3.t :=
  let north := getNorth extent in
  let south := getSouth extent in
  let east := getEast extent in
  let west := getWest extent in
  let east := if Rlt_dec east west then east + 360 else east in
  let e := ellipsoid p in
  let northEast := lonLatToCartesian e (LonLat.mk east north 0) in
  let southWest := lonLatToCartesian e (LonLat.mk west south 0) in
  let center :=
    Vec3.add (Vec3.scale (Vec3.sub northEast southWest) 0.5) southWest in
  let mag := Vec3.length center in
  if Rlt_dec mag 0.000001
  then lonLatToCartesian e
         (LonLat.mk ((east + west) * 0.5) ((north + south) * 0.5) 0)
  else center.

(** *** The flight planner *)

(** The easing of frame [i]: lines 370-372. *)
Definition easing (numFrames i : nat) : R :=
  let d := 1 - INR i / INR numFrames in
  let d := d * d * (3 - 2 * d) in
  d * d.

(** The easing in the words of the spec: [ease x = s(x)^2] with
    [s(x) = x^2 (3 - 2 x)]. *)
Definition smoothstep2 (x : R) : R :=
  (x * x * (3 - 2 * x)) * (x * x * (3 - 2 * x)).

(** The apex height [max_h] from the two ground directions and the two
    endpoint heights: lines 357-365. *)
Definition apexHeight (an bn : Vec3.t) (height_a height_b : R) : R :=
  let anbn := 1 - Vec3.dot an bn in
  let hM_a := SQRT_HALF * sqrt (if Rlt_dec 0 anbn then anbn else 0) in
  let maxHeight := 6639613 in
  let currMaxHeight := Rmax height_a height_b in
  let maxHeight :=
    if Rlt_dec maxHeight currMaxHeight then currMaxHeight else maxHeight in
  currMaxHeight + 2.5 * hM_a * (maxHeight - currMaxHeight).

(** The apex height in the words of the spec: the floor, raised to the
    larger endpoint height when that exceeds it, is both the base of the
    sum and the bound of the bulge term. *)
Definition apexHeight_spec (an bn : Vec3.t) (height_a height_b : R) : R :=
  let sep := 1 - Vec3.dot an bn in
  let hM := sqrt (Rmax sep 0 / 2) in
  let maxAltitudeFloor := Rmax 6639613 (Rmax height_a height_b) in
  Rmax maxAltitudeFloor (Rmax height_a height_b)
  + 2.5 * hM * (maxAltitudeFloor - Rmax height_a height_b).

(** The basis at the end of the flight: lines 349-353. *)
Definition endBasis (eye_b look up_b : Vec3.t) : Vec3.t * Vec3.t * Vec3.t :=
  let n_b := Vec3.sub eye_b look in
  let u_b := Vec3.cross up_b n_b in
  let n_b := Vec3.normalize n_b in
  let u_b := Vec3.normalize u_b in
  let v_b := Vec3.cross n_b u_b in
  (n_b, u_b, v_b).

(** The body of the planning loop for the eased parameter [d]:
    lines 375-395. *)
Definition flightFrame (p : Planet) (ground_a ground_b v_a v_b n_a n_b : Vec3.t)
    (height_a height_b max_h d : R) : Frame :=
  let g_i := Vec3.normalize (Vec3.smerp ground_a ground_b d) in
  let ground_i := getRayIntersectionEllipsoid p (mkRay Vec3.ZERO g_i) in
  let t := 1 - d in
  let height_i := height_a * d * d * d + max_h * 3 * d * d * t
                  + max_h * 3 * d * t * t + height_b * t * t * t in
  let eye_i := Vec3.add ground_i (Vec3.scale g_i height_i) in
  let up_i := Vec3.smerp v_a v_b d in
  let look_i := Vec3.add eye_i (Vec3.negateTo (Vec3.smerp n_a n_b d)) in
  let n := Vec3.mk (Vec3.x eye_i - Vec3.x look_i)
             (Vec3.y eye_i - Vec3.y look_i) (Vec3.z eye_i - Vec3.z look_i) in
  let u := Vec3.cross up_i n in
  let n := Vec3.normalize n in
  let u := Vec3.normalize u in
  let v := Vec3.cross n u in
  mkFrame eye_i n u v.

(** [arr[i] = a] for an index up to the length of the array: an existing
    slot is overwritten, the slot just past the end is appended.  The
    planning loop counts [i] up from 0 and never writes further out. *)
Definition array_set {A : Type} (arr : list A) (i : nat) (a : A) : list A :=
  if decide (i < length arr)%nat then <[ i := a ]> arr else arr ++ [a].

(** The frame of index [i] for the flight of camera [c] to [cartesian]:
    the loop-invariant values of lines 336-366 followed by the loop body. *)
Definition planFrame (p : Planet) (c : Camera) (cartesian : Vec3.t)
    (look : option Look) (up : option Vec3.t) (i : nat) : Frame :=
  let el := ellipsoid p in
  let look := match look with
              | None => Vec3.ZERO
              | Some (LookCartesian v) => v
              | Some (LookLonLat ll) => lonLatToCartesian el ll
              end in
  let ground_a :=
    lonLatToCartesian el
      (LonLat.mk (LonLat.lon (_lonLat c)) (LonLat.lat (_lonLat c)) 0) in
  let v_a := _v c in
  let n_a := _n c in
  let lonlat_b := cartesianToLonLat el cartesian in
  let up_b := default Vec3.UP up in
  let ground_b :=
    lonLatToCartesian el
      (LonLat.mk (LonLat.lon lonlat_b) (LonLat.lat lonlat_b) 0) in
  let eye_b := cartesian in
  let '(n_b, u_b, v_b) := endBasis eye_b look up_b in
  let an := Vec3.normal ground_a in
  let bn := Vec3.normal ground_b in
  let max_h :=
    apexHeight an bn (LonLat.height (_lonLat c)) (LonLat.height lonlat_b) in
  flightFrame p ground_a ground_b v_a v_b n_a n_b
    (LonLat.height (_lonLat c)) (LonLat.height lonlat_b) max_h
    (easing (_numFrames c) i).

(** Lines 336-399 of [flyCartesian]: everything after the start
    callback. *)
Definition planFlight (w : World) (cartesian : Vec3.t) (look : option Look)
    (up : option Vec3.t) : World :=
  let c := cam w in
  let frames :=
    fold_left
      (fun arr i => array_set arr i (planFrame (planet w) c cartesian look up i))
      (seq 0 (S (_numFrames c))) (_framesArr c) in
  with_cam w (set_flight c frames (Z.of_nat (_numFrames c)) true).

(** [flyCartesian], given the way a callback is run. *)
Definition flyCartesianWith (call : Callback -> World -> World) (w : World)
    (cartesian : Vec3.t) (look : option Look) (up : option Vec3.t)
    (completeCallback startCallback : option Callback) : World :=
  let w := stopFlying w in
  let w := with_cam w (set_completeCallback (cam w) completeCallback) in
  let w := match startCallback with
           | Some s => call s w
           | None => w
           end in
  planFlight w cartesian look up.

(** Running a callback: it reports, then acts on the camera. *)
Fixpoint call (cb : Callback) (w : World) : World :=
  match cb with
  | CbNotify tag => emit (EvCallback tag) w
  | CbStopFlying tag => stopFlying (emit (EvCallback tag) w)
  | CbFlyCartesian tag cartesian look up completeCallback startCallback =>
      flyCartesianWith call (emit (EvCallback tag) w) cartesian look up
        completeCallback startCallback
  end.

Definition flyCartesian : World -> Vec3.t -> option Look -> option Vec3.t ->
    option Callback -> option Callback -> World :=
  flyCartesianWith call.

Definition flyLonLat (w : World) (lonlat : LonLat.t) (look : option Look)
    (up : option Vec3.t) (completeCallback startCallback : option Callback)
    : World :=
  let _lonlat :=
    LonLat.mk (LonLat.lon lonlat) (LonLat.lat lonlat)
      (or_number (LonLat.height lonlat) (LonLat.height (_lonLat (cam w)))) in
  flyCartesian w (lonLatToCartesian (ellipsoid (planet w)) _lonlat) look up
    completeCallback startCallback.

(** *** The flight executor *)

(** [arr[c]] for a numeric index: [undefined] outside the array. *)
Definition frame_at (arr : list Frame) (c : Z) : option Frame :=
  if (c <? 0)%Z then None else arr !! Z.to_nat c.

(** [prepareFrame].  Reading a field of [undefined] throws; the result is
    then [None]. *)
Definition prepareFrame (w : World) : option World :=
  if _flying (cam w) then
    let c := (Z.of_nat (_numFrames (cam w)) - _framesCounter (cam w))%Z in
    let w := lock_all w in
    match frame_at (_framesArr (cam w)) c with
    | None => None
    | Some f =>
        let w := with_cam w (set_pose (cam w) (f_eye f) (f_u f) (f_v f) (f_n f)) in
        let w := update w in
        let w := with_cam w
                   (set_framesCounter (cam w) (_framesCounter (cam w) - 1)%Z) in
        if (_framesCounter (cam w) <? 0)%Z then
          let w := stopFlying w in
          match _completeCallback (cam w) with
          | Some cb =>
              let w := call cb w in
              Some (with_cam w (set_completeCallback (cam w) None))
          | None => Some w
          end
        else Some w
    end
  else
    let w := with_cam w
               (set_terrainAltitude (cam w) (LonLat.height (_lonLat (cam w)))) in
    match _insideSegment (cam w) with
    | Some seg =>
        if Rlt_dec (LonLat.height (_lonLat (cam w))) 1000000 then
          let '(alt, pos, pt) :=
            getTerrainPoint seg (eye (cam w)) (_insideSegmentPosition (cam w))
              (_terrainPoint (cam w)) in
          let w := with_cam w (set_terrain (cam w) alt pos pt) in
          if Rlt_dec (_terrainAltitude (cam w)) (minAltitude (cam w))
          then Some (setAltitude w (minAltitude (cam w)))
          else Some w
        else Some w
    | None => Some w
    end.

(** The constructor (lines 32-101).  The pose comes from the base camera;
    [eyeNorm] is first assigned by [update]. *)
Definition newPlanetCamera (p : Planet) (key : Key) (e u v n : Vec3.t)
    (minAlt : R) : Camera :=
  let ll := cartesianToLonLat (ellipsoid p) e in
  mkCamera e u v n (or_number minAlt 50) ll (forwardMercator ll)
    (LonLat.height ll) (Vec3.mk 0 0 0) None 0 Vec3.ZERO (LonLat.mk 0 0 0)
    key [] 0%Z 50%nat None false.

(** [k] render ticks in a row. *)
Fixpoint ticks (k : nat) (w : World) : option World :=
  match k with
  | O => Some w
  | S k' => match prepareFrame w with
            | Some w' => ticks k' w'
            | None => None
            end
  end.

End PlanetCamera.

(** ** Spherical planets for the examples *)

Module Demo.

Definition RADIANS : R := PI / 180.
Definition DEGREES : R := 180 / PI.

(** The sphere of the given radius about the origin, with the axes of the
    globe: [y] through the poles, [z] through longitude 0 on the equator. *)
Definition atan2 (a b : R) : R :=
  if Rlt_dec 0 b then atan (a / b)
  else if Rlt_dec b 0 then
         if Rle_dec 0 a then atan (a / b) + PI else atan (a / b) - PI
       else if Rlt_dec 0 a then PI / 2
            else if Rlt_dec a 0 then - (PI / 2) else 0.

Definition sphere (radius : R) : Ellipsoid :=
  mkEllipsoid
    (fun p =>
       let r := Vec3.length p in
       LonLat.mk (atan2 (Vec3.x p) (Vec3.z p) * DEGREES)
         (asin (Vec3.y p / r) * DEGREES) (r - radius))
    (fun ll =>
       let r := radius + LonLat.height ll in
       let latrad := LonLat.lat ll * RADIANS in
       let lonrad := LonLat.lon ll * RADIANS in
       Vec3.mk (r * cos latrad * sin lonrad) (r * sin latrad)
         (r * cos latrad * cos lonrad)).

(** A ray along a unit direction meets the sphere about its origin at
    [radius] times that direction. *)
Definition intersect (radius : R) (r : Ray) : Vec3.t :=
  Vec3.add (origin r) (Vec3.scale (direction r) radius).

Definition planet (radius : R) : Planet :=
  mkPlanet (sphere radius) (intersect radius) ∅ ∅ ∅.

(** The spherical mercator projection and its band. *)
Definition POLE : R := 20037508.34.

#[global] Instance mercator : Mercator :=
  mkMercator 85.05113
    (fun ll =>
       LonLat.mk (LonLat.lon ll * (POLE / 180))
         (ln (tan ((90 + LonLat.lat ll) * (PI / 360))) * (POLE / PI))
         (LonLat.height ll)).

(** A freshly built camera with key 0 at [e], its basis looking down the
    [z] axis. *)
Definition camera (radius : R) (e : Vec3.t) : Camera :=
  newPlanetCamera (planet radius) 0%nat e (Vec3.mk 1 0 0)
    (Vec3.mk 0 1 0) (Vec3.mk 0 0 1) 0.

Definition world (radius : R) (e : Vec3.t) : World :=
  mkWorld (camera radius e) (planet radius) [].

(** Three eyes about the unit sphere: one and two radii above longitude 0
    on the equator, and one radius above the north pole. *)
Definition above : Vec3.t := Vec3.mk 0 0 2.
Definition higher : Vec3.t := Vec3.mk 0 0 3.
Definition pole : Vec3.t := Vec3.mk 0 2 0.

(** A planet of radius 1/100000, with one eye a radius above its north
    pole and one a radius above its south pole. *)
Definition tiny : R := 1 / 100000.
Definition north : Vec3.t := Vec3.mk 0 (2 * tiny) 0.
Definition south : Vec3.t := Vec3.mk 0 (- (2 * tiny)) 0.

(** A flight whose completion callback asks for the flight back, itself
    with a completion callback. *)
Definition report : Callback := CbNotify 2.
Definition flyBack : Callback :=
  CbFlyCartesian 1 above None None (Some report) None.

End Demo.

(** ** Reading the trace *)

Definition is_lock (s : Subsystem) (e : Event) : bool :=
  match e with
  | EvLock s' _ => bool_decide (s = s')
  | _ => false
  end.

Definition is_free (s : Subsystem) (e : Event) : bool :=
  match e with
  | EvFree s' _ => bool_decide (s = s')
  | _ => false
  end.

(** The number of [lock] and of [free] calls a trace holds for a
    subsystem. *)
Definition lock_calls (s : Subsystem) (t : list Event) : nat :=
  length (List.filter (is_lock s) t).

Definition free_calls (s : Subsystem) (t : list Event) : nat :=
  length (List.filter (is_free s) t).

(** The tags of the callbacks a trace saw run, in order. *)
Fixpoint callbacks (t : list Event) : list nat :=
  match t with
  | [] => []
  | EvCallback tag :: t' => tag :: callbacks t'
  | _ :: t' => callbacks t'
  end.

(** Every lock or free call of the trace carries key [k]. *)
Definition keyed_by (k : Key) (e : Event) : Prop :=
  match e with
  | EvLock _ k' | EvFree _ k' => k' = k
  | _ => True
  end.

(** What one flying tick and one [stopFlying] leave in the trace. *)
Definition tick_events (k : Key) : list Event :=
  [EvLock LayerLock k; EvLock TerrainLock k; EvLock NormalMapCreator k;
   EvViewChange].

Definition free_events (k : Key) : list Event :=
  [EvFree LayerLock k; EvFree TerrainLock k; EvFree NormalMapCreator k].

Fixpoint repeat_events (j : nat) (l : list Event) : list Event :=
  match j with
  | O => []
  | S j' => l ++ repeat_events j' l
  end.

(** The camera holds none of the three locks. *)
Definition released (w : World) : Prop :=
  (_keyLock (cam w) ∉ layerLock (planet w)) /\
  (_keyLock (cam w) ∉ terrainLock (planet w)) /\
  (_keyLock (cam w) ∉ _normalMapCreator (planet w)).

(** The pose of the camera as a frame. *)
Definition pose (w : World) : Frame :=
  mkFrame (eye (cam w)) (_n (cam w)) (_u (cam w)) (_v (cam w)).

(** A callback that only reports, or no callback at all. *)
Definition quiet (cb : option Callback) : Prop :=
  match cb with
  | None | Some (CbNotify _) => True
  | Some _ => False
  end.

(** The start pose is aligned with the planner's path: the eye stands at
    its geodetic height on the ray from the centre through its ground
    point (on a sphere it always does), and the basis is orthonormal with
    [v = n x u]. *)
Definition StartAligned (p : Planet) (c : Camera) : Prop :=
  let ground_a :=
    lonLatToCartesian (ellipsoid p)
      (LonLat.mk (LonLat.lon (_lonLat c)) (LonLat.lat (_lonLat c)) 0) in
  let an := Vec3.normal ground_a in
  eye c = Vec3.add (getRayIntersectionEllipsoid p (mkRay Vec3.ZERO an))
            (Vec3.scale an (LonLat.height (_lonLat c))) /\
  Vec3.dot (_n c) (_n c) = 1 /\
  Vec3.dot (_u c) (_u c) = 1 /\
  Vec3.dot (_n c) (_u c) = 0 /\
  _v c = Vec3.cross (_n c) (_u c).

(** The look target of a flight as a point. *)
Definition look_point (p : Planet) (look : option Look) : Vec3.t :=
  match look with
  | None => Vec3.ZERO
  | Some (LookCartesian v) => v
  | Some (LookLonLat ll) => lonLatToCartesian (ellipsoid p) ll
  end.

(** The end pose is aligned likewise, and its basis is not degenerate:
    the target is not the look point, and the up vector is not along the
    line of sight. *)
Definition EndAligned (p : Planet) (cartesian : Vec3.t) (look : option Look)
    (up : option Vec3.t) : Prop :=
  let lonlat_b := cartesianToLonLat (ellipsoid p) cartesian in
  let ground_b :=
    lonLatToCartesian (ellipsoid p)
      (LonLat.mk (LonLat.lon lonlat_b) (LonLat.lat lonlat_b) 0) in
  let bn := Vec3.normal ground_b in
  let n_b := Vec3.sub cartesian (look_point p look) in
  cartesian = Vec3.add (getRayIntersectionEllipsoid p (mkRay Vec3.ZERO bn))
                (Vec3.scale bn (LonLat.height lonlat_b)) /\
  Vec3.length n_b <> 0 /\
  Vec3.length (Vec3.cross (default Vec3.UP up) n_b) <> 0.

(** The end basis of lines 349-353 is defined: the target is not the look
    point, and the up vector is not along the line of sight.  Both vectors
    are normalized by the planner; where one of them has no length the
    source's normalization gives an undefined direction, which its blend
    carries into every frame of the plan, whatever the frame's weight. *)
Definition EndBasisDefined (p : Planet) (cartesian : Vec3.t)
    (look : option Look) (up : option Vec3.t) : Prop :=
  let n_b := Vec3.sub cartesian (look_point p look) in
  Vec3.length n_b <> 0 /\
  Vec3.length (Vec3.cross (default Vec3.UP up) n_b) <> 0.

(** The end pose a flight aims at. *)
Definition endPose (p : Planet) (cartesian : Vec3.t) (look : option Look)
    (up : option Vec3.t) : Frame :=
  let '(n_b, u_b, v_b) :=
    endBasis cartesian (look_point p look) (default Vec3.UP up) in
  mkFrame cartesian n_b u_b v_b.

(** ** The flight in progress *)

(** What no flight operation changes: the pose apart, the geodetic
    position, the frame count, the key and the planet's geometry. *)
Definition fixed_part (w : World) :=
  (pose w, _lonLat (cam w), _numFrames (cam w), _keyLock (cam w),
   ellipsoid (planet w), getRayIntersectionEllipsoid (planet w)).

(** A flight with [k] frames still to come after the next one: the plan is
    complete and the cursor is [k]. *)
Definition InFlight (w : World) (k : nat) : Prop :=
  _flying (cam w) = true /\
  _framesCounter (cam w) = Z.of_nat k /\
  (k <= _numFrames (cam w))%nat /\
  length (_framesArr (cam w)) = S (_numFrames (cam w)).

(** The flying branch of [prepareFrame] up to the end-of-flight test, for
    the frame [f] under the cursor. *)
Definition applied `{Mercator} (w : World) (f : Frame) : World :=
  let w := lock_all w in
  let w := with_cam w (set_pose (cam w) (f_eye f) (f_u f) (f_v f) (f_n f)) in
  let w := update w in
  with_cam w (set_framesCounter (cam w) (_framesCounter (cam w) - 1)%Z).

(** The end of the flight: lines 503-507. *)
Definition finished (w : World) : World :=
  let w := stopFlying w in
  match _completeCallback (cam w) with
  | Some cb =>
      let w := call cb w in
      with_cam w (set_completeCallback (cam w) None)
  | None => w
  end.

(** Induction on callbacks that reaches the start callback of a nested
    flight request. *)
Fixpoint Callback_start_ind (P : Callback -> Prop)
    (HN : forall tag, P (CbNotify tag))
    (HS : forall tag, P (CbStopFlying tag))
    (HF : forall tag cartesian look up completeCallback startCallback,
        match startCallback with Some s => P s | None => True end ->
        P (CbFlyCartesian tag cartesian look up completeCallback startCallback))
    (cb : Callback) : P cb :=
  match cb with
  | CbNotify tag => HN tag
  | CbStopFlying tag => HS tag
  | CbFlyCartesian tag cartesian look up completeCallback startCallback =>
      HF tag cartesian look up completeCallback startCallback
        (match startCallback with
         | Some s => Callback_start_ind P HN HS HF s
         | None => I
         end)
  end.

(** What a quiet completion callback leaves in the trace. *)
Definition quiet_events (cb : option Callback) : list Event :=
  match cb with
  | Some (CbNotify tag) => [EvCallback tag]
  | _ => []
  end.

(** The blended ground vector of frame [i], before it is normalized:
    [ground_a.smerp(ground_b, d)] of line 375. *)
Definition blendedGround (p : Planet) (c : Camera) (cartesian : Vec3.t)
    (i : nat) : Vec3.t :=
  let el := ellipsoid p in
  let ground_a :=
    lonLatToCartesian el
      (LonLat.mk (LonLat.lon (_lonLat c)) (LonLat.lat (_lonLat c)) 0) in
  let lonlat_b := cartesianToLonLat el cartesian in
  let ground_b :=
    lonLatToCartesian el
      (LonLat.mk (LonLat.lon lonlat_b) (LonLat.lat lonlat_b) 0) in
  Vec3.smerp ground_a ground_b (easing (_numFrames c) i).

(** The height of frame [i] along the path: line 378. *)
Definition blendedHeight (p : Planet) (c : Camera) (cartesian : Vec3.t)
    (i : nat) : R :=
  let el := ellipsoid p in
  let ground_a :=
    lonLatToCartesian el
      (LonLat.mk (LonLat.lon (_lonLat c)) (LonLat.lat (_lonLat c)) 0) in
  let lonlat_b := cartesianToLonLat el cartesian in
  let ground_b :=
    lonLatToCartesian el
      (LonLat.mk (LonLat.lon lonlat_b) (LonLat.lat lonlat_b) 0) in
  let max_h :=
    apexHeight (Vec3.normal ground_a) (Vec3.normal ground_b)
      (LonLat.height (_lonLat c)) (LonLat.height lonlat_b) in
  let d := easing (_numFrames c) i in
  let t := 1 - d in
  LonLat.height (_lonLat c) * d * d * d + max_h * 3 * d * d * t
  + max_h * 3 * d * t * t + LonLat.height lonlat_b * t * t * t.

(** ** The rest of the camera *)

(** math.RADIANS.  Modelled from the spec: og/math is not among the
    sources; the factor from degrees to radians. *)
Definition RADIANS : R := PI / 180.

(** The fields of the base camera that [getExtentPosition] reads. *)
Record Projection : Type := mkProjection {
  _viewAngle : R;
  _aspect : R
}.

(** [Math.max] of four numbers. *)
Definition max4 (a b c d : R) : R := Rmax (Rmax (Rmax a b) c) d.

(** The midpoint of the north-east and south-west corners, before the
    defensive check: lines 226-246. *)
Definition getExtentMidpoint (p : Planet) (extent : Extent) : Vec3.t :=
  let north := getNorth extent in
  let south := getSouth extent in
  let east := getEast extent in
  let west := getWest extent in
  let east := if Rlt_dec east west then east + 360 else east in
  let e := ellipsoid p in
  let northEast := lonLatToCartesian e (LonLat.mk east north 0) in
  let southWest := lonLatToCartesian e (LonLat.mk west south 0) in
  Vec3.add (Vec3.scale (Vec3.sub northEast southWest) 0.5) southWest.

(** The distance [d] at which the four corners, taken relative to
    [center], fit the view: lines 255-280. *)
Definition getExtentDistance (proj : Projection) (p : Planet)
    (extent : Extent) (center : Vec3.t) : R :=
  let north := getNorth extent in
  let south := getSouth extent in
  let east := getEast extent in
  let west := getWest extent in
  let east := if Rlt_dec east west then east + 360 else east in
  let e := ellipsoid p in
  let northEast := lonLatToCartesian e (LonLat.mk east north 0) in
  let southEast := lonLatToCartesian e (LonLat.mk east south 0) in
  let southWest := lonLatToCartesian e (LonLat.mk west south 0) in
  let northWest := lonLatToCartesian e (LonLat.mk west north 0) in
  let northWest := Vec3.sub northWest center in
  let southEast := Vec3.sub southEast center in
  let northEast := Vec3.sub northEast center in
  let southWest := Vec3.sub southWest center in
  let direction := Vec3.normal center in
  let right := Vec3.normalize (Vec3.cross direction Vec3.UP) in
  let up := Vec3.normalize (Vec3.cross right direction) in
  let _h := max4 (Rabs (Vec3.dot up northWest)) (Rabs (Vec3.dot up southEast))
              (Rabs (Vec3.dot up northEast)) (Rabs (Vec3.dot up southWest)) in
  let _w := max4 (Rabs (Vec3.dot right northWest))
              (Rabs (Vec3.dot right southEast))
              (Rabs (Vec3.dot right northEast))
              (Rabs (Vec3.dot right southWest)) in
  let tanPhi := tan (_viewAngle proj * RADIANS * 0.5) in
  let tanTheta := _aspect proj * tanPhi in
  Rmax (_w / tanTheta) (_h / tanPhi).

(** [getExtentPosition]: lines 224-286.  The magnitude added to the
    distance is the one of the midpoint, also when the centre was
    replaced. *)
Definition getExtentPosition (proj : Projection) (p : Planet)
    (extent : Extent) (height : R) : Vec3.t :=
  let mag := Vec3.length (getExtentMidpoint p extent) in
  let center := getExtentCenter p extent in
  let d := getExtentDistance proj p extent center in
  Vec3.scale (Vec3.normalize center) (mag + d + or_number height 0).

Section PlanetCameraExtent.

Context {merc : Mercator}.

Definition viewExtent (proj : Projection) (w : World) (extent : Extent)
    (height : R) : World :=
  let w := stopFlying w in
  let c := set (cam w) (getExtentPosition proj (planet w) extent height)
             Vec3.ZERO Vec3.UP in
  refresh (with_cam w c).

Definition flyExtent (proj : Projection) (w : World) (extent : Extent)
    (height : R) (up : option Vec3.t)
    (completeCallback startCallback : option Callback) : World :=
  flyCartesian w (getExtentPosition proj (planet w) extent height)
    (Some (LookCartesian Vec3.ZERO)) up completeCallback startCallback.

(** The calls a program makes on the camera, one after the other.  A
    [setAltitude] between two ticks of a flight writes into the eye of
    the frame just applied, which no later tick reads. *)
Inductive Command : Type :=
| DoFlyCartesian (cartesian : Vec3.t) (look : option Look)
    (up : option Vec3.t) (completeCallback startCallback : option Callback)
| DoFlyLonLat (lonlat : LonLat.t) (look : option Look) (up : option Vec3.t)
    (completeCallback startCallback : option Callback)
| DoFlyExtent (extent : Extent) (height : R) (up : option Vec3.t)
    (completeCallback startCallback : option Callback)
| DoViewExtent (extent : Extent) (height : R)
| DoSetLonLat (lonlat : LonLat.t) (lookLonLat : option LonLat.t)
    (up : option Vec3.t)
| DoSetAltitude (alt : R)
| DoStopFlying
| DoPrepareFrame.

Definition perform (proj : Projection) (cmd : Command) (w : World)
    : option World :=
  match cmd with
  | DoFlyCartesian cartesian look up cc sc =>
      Some (flyCartesian w cartesian look up cc sc)
  | DoFlyLonLat lonlat look up cc sc =>
      Some (flyLonLat w lonlat look up cc sc)
  | DoFlyExtent extent height up cc sc =>
      Some (flyExtent proj w extent height up cc sc)
  | DoViewExtent extent height => Some (viewExtent proj w extent height)
  | DoSetLonLat lonlat lookLonLat up =>
      Some (setLonLat w lonlat lookLonLat up)
  | DoSetAltitude alt => Some (setAltitude w alt)
  | DoStopFlying => Some (stopFlying w)
  | DoPrepareFrame => prepareFrame w
  end.

(** A program runs until a call throws. *)
Fixpoint run (proj : Projection) (cmds : list Command) (w : World)
    : option World :=
  match cmds with
  | [] => Some w
  | cmd :: cmds' =>
      match perform proj cmd w with
      | Some w' => run proj cmds' w'
      | None => None
      end
  end.

End PlanetCameraExtent.

(** A camera that flies has a complete plan and its cursor inside it. *)
Definition Consistent (w : World) : Prop :=
  _flying (cam w) = true -> exists k : nat, InFlight w k.

(** The key holds the three locks of the planet. *)
Definition holds (k : Key) (p : Planet) : Prop :=
  k ∈ layerLock p /\ k ∈ terrainLock p /\ k ∈ _normalMapCreator p.

(** The claims of every key but [k] are the same on both planets. *)
Definition same_for_others (k : Key) (p p' : Planet) : Prop :=
  forall k' : Key,
    k' <> k ->
    (k' ∈ layerLock p <-> k' ∈ layerLock p') /\
    (k' ∈ terrainLock p <-> k' ∈ terrainLock p') /\
    (k' ∈ _normalMapCreator p <-> k' ∈ _normalMapCreator p').

(** A basis of three unit vectors, orthogonal two by two. *)
Definition Orthonormal (n u v : Vec3.t) : Prop :=
  Vec3.dot n n = 1 /\ Vec3.dot u u = 1 /\ Vec3.dot v v = 1 /\
  Vec3.dot n u = 0 /\ Vec3.dot n v = 0 /\ Vec3.dot u v = 0.

(** The quad tree tells the camera which node it is over. *)
Definition set_insideSegment (c : Camera) (seg : option Node) : Camera :=
  mkCamera (eye c) (_u c) (_v c) (_n c) (minAltitude c) (_lonLat c)
    (_lonLatMerc c) (_terrainAltitude c) (_terrainPoint c) seg (slope c)
    (eyeNorm c) (_insideSegmentPosition c) (_keyLock c) (_framesArr c)
    (_framesCounter c) (_numFrames c) (_completeCallback c) (_flying c).

(** ** More examples on the unit sphere *)

Module Scene.

(** A node whose terrain is 10 under the eye, at the point where the [z]
    axis leaves the unit sphere. *)
Definition flat : Node :=
  mkNode (fun _ pos _ => (10, pos, Vec3.mk 0 0 1)).

Definition overTerrain : World :=
  mkWorld (set_insideSegment (Demo.camera 1 Demo.above) (Some flat))
    (Demo.planet 1) [].

(** A square view of 90 degrees, and the extent that is the single point
    at longitude 0 on the equator. *)
Definition view : Projection := mkProjection 90 1.

(** A program: a flight request, three ticks, an altitude change in
    flight, a stop and a tick of the idle camera. *)
Definition program : list Command :=
  [DoFlyCartesian Demo.higher None None (Some Demo.flyBack) None;
   DoPrepareFrame; DoPrepareFrame; DoPrepareFrame; DoSetAltitude 200;
   DoStopFlying; DoPrepareFrame].

End Scene.

(** The ground points the planner blends between: below the camera
    (line 341) and below the target (lines 345-347). *)
Definition ground_a (p : Planet) (c : Camera) : Vec3.t :=
  lonLatToCartesian (ellipsoid p)
    (LonLat.mk (LonLat.lon (_lonLat c)) (LonLat.lat (_lonLat c)) 0).

Definition ground_b (p : Planet) (cartesian : Vec3.t) : Vec3.t :=
  let lonlat_b := cartesianToLonLat (ellipsoid p) cartesian in
  lonLatToCartesian (ellipsoid p)
    (LonLat.mk (LonLat.lon lonlat_b) (LonLat.lat lonlat_b) 0).

(** ** Properties *)

#[global] Arguments Vec3.normalize : simpl never.
#[global] Arguments Vec3.normal : simpl never.
#[global] Arguments Vec3.add : simpl never.
#[global] Arguments Vec3.sub : simpl never.
#[global] Arguments Vec3.scale : simpl never.
#[global] Arguments Vec3.cross : simpl never.
#[global] Arguments Vec3.dot : simpl never.
#[global] Arguments Vec3.smerp : simpl never.
#[global] Arguments Vec3.negateTo : simpl never.
#[global] Arguments Vec3.length : simpl never.

(** *** Vector algebra *)

Lemma Vec3_eq (a b : Vec3.t) :
  Vec3.x a = Vec3.x b -> Vec3.y a = Vec3.y b -> Vec3.z a = Vec3.z b -> a = b.
Proof. destruct a, b; simpl; intros -> -> ->; reflexivity. Qed.

Lemma length_nonneg (a : Vec3.t) : 0 <= Vec3.length a.
Proof. apply sqrt_pos. Qed.

Lemma length_sq (a : Vec3.t) :
  Vec3.length a * Vec3.length a = Vec3.dot a a.
Proof.
  unfold Vec3.length, Vec3.dot. apply sqrt_sqrt.
  destruct a as [a1 a2 a3]; simpl. nra.
Qed.

Lemma normalize_unit (a : Vec3.t) :
  Vec3.length a = 1 -> Vec3.normalize a = a.
Proof.
  intros H. unfold Vec3.normalize. rewrite H.
  apply Vec3_eq; simpl; lra.
Qed.

Lemma length_normalize (a : Vec3.t) :
  Vec3.length a <> 0 -> Vec3.length (Vec3.normalize a) = 1.
Proof.
  intros H. pose proof (length_sq a) as Hsq. pose proof (length_nonneg a) as Hge.
  unfold Vec3.length at 1. unfold Vec3.normalize; simpl.
  replace (_ + _ + _) with (Vec3.dot a a * (1 / Vec3.length a * (1 / Vec3.length a)))
    by (unfold Vec3.dot; ring).
  rewrite <- Hsq. replace (_ * _) with 1 by (field; exact H). apply sqrt_1.
Qed.

Lemma smerp_1 (a b : Vec3.t) : Vec3.smerp a b 1 = a.
Proof. apply Vec3_eq; simpl; ring. Qed.

Lemma smerp_0 (a b : Vec3.t) : Vec3.smerp a b 0 = b.
Proof. apply Vec3_eq; simpl; ring. Qed.

(** For a unit [n] orthogonal to [u], the vector [(n x u) x n] is [u]. *)
Lemma cross_cross_unit (n u : Vec3.t) :
  Vec3.dot n n = 1 -> Vec3.dot n u = 0 ->
  Vec3.cross (Vec3.cross n u) n = u.
Proof.
  destruct n as [n1 n2 n3], u as [u1 u2 u3]; unfold Vec3.dot, Vec3.cross; simpl.
  intros Hn Hu. apply Vec3_eq; simpl.
  - replace (_ - _) with (u1 * (n1 * n1 + n2 * n2 + n3 * n3)
                          - n1 * (n1 * u1 + n2 * u2 + n3 * u3)) by ring.
    rewrite Hn, Hu. ring.
  - replace (_ - _) with (u2 * (n1 * n1 + n2 * n2 + n3 * n3)
                          - n2 * (n1 * u1 + n2 * u2 + n3 * u3)) by ring.
    rewrite Hn, Hu. ring.
  - replace (_ - _) with (u3 * (n1 * n1 + n2 * n2 + n3 * n3)
                          - n3 * (n1 * u1 + n2 * u2 + n3 * u3)) by ring.
    rewrite Hn, Hu. ring.
Qed.

(** *** Easing *)

Lemma smoothstep2_mono (a b : R) :
  0 <= b -> b <= a -> a <= 1 -> smoothstep2 b <= smoothstep2 a.
Proof.
  intros Hb Hba Ha. unfold smoothstep2.
  assert (Hsb : 0 <= b * b * (3 - 2 * b)) by nra.
  assert (Hs : b * b * (3 - 2 * b) <= a * a * (3 - 2 * a)).
  { assert (H : 0 <= (a - b) * (a * (3 - 2 * a - b) + b * (3 - 2 * b - a))).
    { apply Rmult_le_pos; [lra|]. apply Rplus_le_le_0_compat; nra. }
    nra. }
  nra.
Qed.

Lemma frame_fraction (N i : nat) :
  (0 < N)%nat -> (i <= N)%nat -> 0 <= INR i / INR N <= 1.
Proof.
  intros HN Hi. apply lt_INR in HN. apply le_INR in Hi. simpl in HN.
  pose proof (pos_INR i) as Hp. split.
  - apply Rmult_le_pos; [lra|]. left. apply Rinv_0_lt_compat. lra.
  - unfold Rdiv. apply Rmult_le_reg_r with (INR N); [lra|].
    rewrite Rmult_assoc, Rinv_l; lra.
Qed.

(** C9. For a positive frame count [N], the eased parameter of frame [i]
    is [(x^2 (3 - 2 x))^2] with [x = 1 - i / N]; it is 1 at frame 0, 0 at
    frame [N], and it never increases from a frame to a later one. *)
Theorem easing_monotone (N : nat) (HN : (0 < N)%nat) :
  (forall i : nat,
      easing N i = smoothstep2 (1 - INR i / INR N)) /\
  easing N 0 = 1 /\
  easing N N = 0 /\
  (forall i j : nat, (i <= j)%nat -> (j <= N)%nat -> easing N j <= easing N i).
Proof.
  assert (HNR : INR N <> 0) by (apply not_0_INR; lia).
  repeat split.
  - simpl. unfold easing; simpl. unfold Rdiv. rewrite Rmult_0_l. ring.
  - unfold easing; simpl. unfold Rdiv. rewrite Rinv_r by exact HNR. ring.
  - intros i j Hij HjN. change (smoothstep2 (1 - INR j / INR N)
                                <= smoothstep2 (1 - INR i / INR N)).
    pose proof (frame_fraction N j HN HjN) as Hj.
    assert (INR i / INR N <= INR j / INR N).
    { apply Rmult_le_compat_r.
      - left. apply Rinv_0_lt_compat. apply lt_INR in HN. simpl in HN. lra.
      - apply le_INR. exact Hij. }
    assert (0 <= INR i / INR N) by (apply frame_fraction; lia).
    apply smoothstep2_mono; lra.
Qed.

Lemma easing_monotone_witness :
  easing 50 0 = 1 /\ easing 50 50 = 0 /\ easing 50 18 <= easing 50 17.
Proof.
  destruct (easing_monotone 50 ltac:(lia)) as (_ & H0 & HN & Hmono).
  repeat split; [exact H0 | exact HN | apply Hmono; lia].
Defined.

(** *** Apex height *)

Lemma bulge_factor (sep : R) :
  SQRT_HALF * sqrt (if Rlt_dec 0 sep then sep else 0) = sqrt (Rmax sep 0 / 2).
Proof.
  unfold SQRT_HALF. destruct (Rlt_dec 0 sep) as [Hpos|Hneg].
  - rewrite Rmax_left by lra. rewrite <- sqrt_mult by lra. f_equal. lra.
  - rewrite Rmax_right by lra. rewrite sqrt_0.
    replace (0 / 2) with 0 by lra. rewrite sqrt_0. ring.
Qed.

Lemma raised_floor (h : R) :
  (if Rlt_dec 6639613 h then h else 6639613) = Rmax 6639613 h.
Proof.
  destruct (Rlt_dec 6639613 h); [rewrite Rmax_right | rewrite Rmax_left]; lra.
Qed.

Lemma apexHeight_unfold (an bn : Vec3.t) (height_a height_b : R) :
  apexHeight an bn height_a height_b
  = Rmax height_a height_b
    + 2.5 * sqrt (Rmax (1 - Vec3.dot an bn) 0 / 2)
      * (Rmax 6639613 (Rmax height_a height_b) - Rmax height_a height_b).
Proof.
  unfold apexHeight. cbv zeta. rewrite bulge_factor, raised_floor.
  reflexivity.
Qed.

Lemma apexHeight_same_direction (an bn : Vec3.t) (height_a height_b : R) :
  Vec3.dot an bn = 1 ->
  apexHeight an bn height_a height_b = Rmax height_a height_b.
Proof.
  intros Hdot. rewrite apexHeight_unfold, Hdot.
  replace (1 - 1) with 0 by ring. rewrite (Rmax_left 0 0) by lra.
  replace (0 / 2) with 0 by lra. rewrite sqrt_0. ring.
Qed.

(** C7, as the code has it. The apex height is
    [max(h_a, h_b) + 2.5 hM (floor - max(h_a, h_b))] with
    [hM = sqrt (max (1 - an.bn) 0 / 2)] and [floor] the constant 6639613
    raised to [max(h_a, h_b)] when that is larger: the sum starts from the
    larger endpoint height, not from the floor.  When the two ground
    directions coincide ([an.bn = 1]) the apex is the larger endpoint
    height, so no arc is added. *)
Theorem apexHeight_formula (an bn : Vec3.t) (height_a height_b : R) :
  apexHeight an bn height_a height_b
  = Rmax height_a height_b
    + 2.5 * sqrt (Rmax (1 - Vec3.dot an bn) 0 / 2)
      * (Rmax 6639613 (Rmax height_a height_b) - Rmax height_a height_b)
  /\ (Vec3.dot an bn = 1 ->
      apexHeight an bn height_a height_b = Rmax height_a height_b).
Proof.
  split; [apply apexHeight_unfold | apply apexHeight_same_direction].
Qed.

Lemma apexHeight_formula_witness :
  apexHeight (Vec3.mk 1 0 0) (Vec3.mk 1 0 0) 1000 2000 = Rmax 1000 2000.
Proof.
  apply (apexHeight_formula (Vec3.mk 1 0 0) (Vec3.mk 1 0 0) 1000 2000).
  unfold Vec3.dot; simpl; lra.
Defined.

(** C7, as the claim words it, fails: for two endpoints at height 1000
    over the same ground point the code's apex is 1000, whereas the
    claimed formula gives the floor 6639613. *)
Lemma apexHeight_not_spec :
  apexHeight (Vec3.mk 1 0 0) (Vec3.mk 1 0 0) 1000 1000 = 1000 /\
  apexHeight_spec (Vec3.mk 1 0 0) (Vec3.mk 1 0 0) 1000 1000 = 6639613 /\
  apexHeight (Vec3.mk 1 0 0) (Vec3.mk 1 0 0) 1000 1000
  <> apexHeight_spec (Vec3.mk 1 0 0) (Vec3.mk 1 0 0) 1000 1000.
Proof.
  assert (Hd : Vec3.dot (Vec3.mk 1 0 0) (Vec3.mk 1 0 0) = 1)
    by (unfold Vec3.dot; simpl; lra).
  assert (Hm : Rmax 1000 1000 = 1000) by (apply Rmax_left; lra).
  assert (Hc : apexHeight (Vec3.mk 1 0 0) (Vec3.mk 1 0 0) 1000 1000 = 1000).
  { rewrite (apexHeight_same_direction _ _ _ _ Hd). exact Hm. }
  assert (Hs : apexHeight_spec (Vec3.mk 1 0 0) (Vec3.mk 1 0 0) 1000 1000
               = 6639613).
  { unfold apexHeight_spec. cbv zeta. rewrite Hd, Hm.
    replace (1 - 1) with 0 by ring. rewrite (Rmax_left 0 0) by lra.
    replace (0 / 2) with 0 by lra. rewrite sqrt_0.
    rewrite !(Rmax_left 6639613 1000) by lra. ring. }
  repeat split; [exact Hc | exact Hs |]. rewrite Hc, Hs. lra.
Qed.

(** *** Geodetic position and altitude *)

Section Camera.

Context {merc : Mercator}.

(** The camera after [updateGeodeticPosition], field by field. *)
Lemma updateGeodeticPosition_eq (p : Planet) (c : Camera) :
  updateGeodeticPosition p c
  = let ll := cartesianToLonLat (ellipsoid p) (eye c) in
    mkCamera (eye c) (_u c) (_v c) (_n c) (minAltitude c) ll
      (if Rle_dec (Rabs (LonLat.lat ll)) MAX_LAT
       then forwardMercator ll else _lonLatMerc c)
      (_terrainAltitude c) (_terrainPoint c) (_insideSegment c) (slope c)
      (eyeNorm c) (_insideSegmentPosition c) (_keyLock c) (_framesArr c)
      (_framesCounter c) (_numFrames c) (_completeCallback c) (_flying c).
Proof.
  unfold updateGeodeticPosition. simpl.
  destruct (Rle_dec _ _); reflexivity.
Qed.

(** The world after [update], field by field. *)
Lemma update_eq (w : World) :
  update w
  = let c := cam w in
    let ll := cartesianToLonLat (ellipsoid (planet w)) (eye c) in
    mkWorld
      (mkCamera (eye c) (_u c) (_v c) (_n c) (minAltitude c) ll
         (if Rle_dec (Rabs (LonLat.lat ll)) MAX_LAT
          then forwardMercator ll else _lonLatMerc c)
         (_terrainAltitude c) (_terrainPoint c) (_insideSegment c)
         (Vec3.dot (_n c) (Vec3.normal (eye c))) (Vec3.normal (eye c))
         (_insideSegmentPosition c) (_keyLock c) (_framesArr c)
         (_framesCounter c) (_numFrames c) (_completeCallback c) (_flying c))
      (planet w) (trace w ++ [EvViewChange]).
Proof.
  unfold update. rewrite updateGeodeticPosition_eq. reflexivity.
Qed.

(** C5. [updateGeodeticPosition] always stores the inverse projection of
    the eye in [_lonLat]; it stores the mercator form of that position
    when the absolute latitude is at most [MAX_LAT], and leaves
    [_lonLatMerc] as it was otherwise. *)
Theorem updateGeodeticPosition_mercator (p : Planet) (c : Camera) :
  let c' := updateGeodeticPosition p c in
  _lonLat c' = cartesianToLonLat (ellipsoid p) (eye c) /\
  (Rabs (LonLat.lat (_lonLat c')) <= MAX_LAT ->
   _lonLatMerc c' = forwardMercator (_lonLat c')) /\
  (~ Rabs (LonLat.lat (_lonLat c')) <= MAX_LAT ->
   _lonLatMerc c' = _lonLatMerc c).
Proof.
  cbv zeta. rewrite updateGeodeticPosition_eq. simpl.
  destruct (Rle_dec _ _) as [Hin|Hout]; repeat split; intros; tauto.
Qed.

Lemma setAltitude_moves_eye (w : World) (alt : R) :
  setAltitude w alt
  = update
      (with_cam w
         (set_terrainAltitude
            (set_eye (cam w)
               (Vec3.add (_terrainPoint (cam w))
                  (Vec3.scale (Vec3.normal (eye (cam w))) alt)))
            alt)).
Proof.
  unfold setAltitude. cbv zeta. do 4 f_equal.
  apply Vec3_eq; unfold Vec3.add, Vec3.scale; cbn; ring.
Qed.

Lemma setAltitude_new_eye (w : World) (alt : R) :
  eye (cam (setAltitude w alt))
  = Vec3.add (_terrainPoint (cam w))
      (Vec3.scale (Vec3.normal (eye (cam w))) alt).
Proof. rewrite setAltitude_moves_eye, update_eq. reflexivity. Qed.

(** C6, as the code has it. [setAltitude alt] moves the eye to the
    terrain point plus [alt] times the normalized previous eye vector (the
    direction from the planet centre to the eye), records [alt] as the
    terrain altitude, and recomputes the pose: the geodetic position and
    [eyeNorm] are those of the new eye and a view-change event is sent. *)
Theorem setAltitude_eye (w : World) (alt : R) :
  let w' := setAltitude w alt in
  let new_eye := Vec3.add (_terrainPoint (cam w))
                   (Vec3.scale (Vec3.normal (eye (cam w))) alt) in
  eye (cam w') = new_eye /\
  getAltitude w' = alt /\
  _lonLat (cam w') = cartesianToLonLat (ellipsoid (planet w)) new_eye /\
  eyeNorm (cam w') = Vec3.normal new_eye /\
  trace w' = trace w ++ [EvViewChange].
Proof.
  cbv zeta. rewrite setAltitude_moves_eye, update_eq.
  repeat split; reflexivity.
Qed.

(** C10. A target height of 0 is replaced by the current height of the
    camera: [flyLonLat] flies to the Cartesian image of
    [(lon, lat, current height)], and [setLonLat] puts the eye there. *)
Theorem zero_height_is_current_height (w : World) (lonlat : LonLat.t)
    (look : option Look) (lookLonLat : option LonLat.t) (up : option Vec3.t)
    (completeCallback startCallback : option Callback) :
  LonLat.height lonlat = 0 ->
  let target :=
    lonLatToCartesian (ellipsoid (planet w))
      (LonLat.mk (LonLat.lon lonlat) (LonLat.lat lonlat)
         (LonLat.height (_lonLat (cam w)))) in
  flyLonLat w lonlat look up completeCallback startCallback
  = flyCartesian w target look up completeCallback startCallback /\
  eye (cam (setLonLat w lonlat lookLonLat up)) = target.
Proof.
  intros H0. cbv zeta. split.
  - unfold flyLonLat, or_number. rewrite H0.
    destruct (Req_dec_T 0 0) as [_|Hne]; [reflexivity | contradiction].
  - unfold setLonLat, refresh. rewrite update_eq. simpl.
    unfold or_number, LonLat.set. rewrite H0.
    destruct (Req_dec_T 0 0) as [_|Hne]; [reflexivity | contradiction].
Qed.



(** *** Locks and [stopFlying] *)

Lemma free_free (l : Lock.t) (k : Key) :
  Lock.free (Lock.free l k) k = Lock.free l k.
Proof.
  unfold Lock.free. apply set_eq. intros x.
  rewrite !elem_of_difference. tauto.
Qed.

Lemma free_not_held (l : Lock.t) (k : Key) : k ∉ Lock.free l k.
Proof.
  unfold Lock.free. rewrite elem_of_difference, elem_of_singleton. tauto.
Qed.

Lemma stopFlying_released (w : World) : released (stopFlying w).
Proof. unfold released; simpl. repeat split; apply free_not_held. Qed.

Lemma stopFlying_fixed (w : World) : fixed_part (stopFlying w) = fixed_part w.
Proof. reflexivity. Qed.

(** *** The plan *)

Lemma planFrame_fixed (w w' : World) (cartesian : Vec3.t) (look : option Look)
    (up : option Vec3.t) (i : nat) :
  fixed_part w' = fixed_part w ->
  planFrame (planet w') (cam w') cartesian look up i
  = planFrame (planet w) (cam w) cartesian look up i.
Proof.
  unfold fixed_part, pose. intros [= He Hn Hu Hv Hll HN Hk Hel Hint].
  unfold planFrame, flightFrame. rewrite Hn, Hv, Hll, HN, Hel, Hint.
  reflexivity.
Qed.

Lemma plan_loop (f : nat -> Frame) (arr : list Frame) (m : nat) :
  forall a : nat,
    fold_left (fun arr i => array_set arr i (f i)) (seq a m)
      (map f (seq 0 a) ++ drop a arr)
    = map f (seq 0 (a + m)) ++ drop (a + m) arr.
Proof.
  induction m as [|m IH]; intros a.
  - rewrite Nat.add_0_r. reflexivity.
  - cbn [seq fold_left].
    replace (a + S m)%nat with (S a + m)%nat by lia. rewrite <- IH.
    f_equal. unfold array_set.
    rewrite seq_S, map_app. cbn [map Nat.add].
    rewrite length_app, length_map, length_seq, length_drop.
    destruct (decide (a < a + (length arr - a))%nat) as [Hlt|Hge].
    + destruct (lookup_lt_is_Some_2 arr a ltac:(lia)) as [x0 Hx0].
      rewrite (drop_S _ _ _ Hx0).
      rewrite insert_app_r_alt by (rewrite length_map, length_seq; lia).
      rewrite length_map, length_seq, Nat.sub_diag. cbn [insert list_insert].
      rewrite <- app_assoc. reflexivity.
    + rewrite !drop_ge by lia. rewrite !app_nil_r. reflexivity.
Qed.

Lemma planFlight_frames (w : World) (cartesian : Vec3.t) (look : option Look)
    (up : option Vec3.t) :
  (length (_framesArr (cam w)) <= S (_numFrames (cam w)))%nat ->
  _framesArr (cam (planFlight w cartesian look up))
  = map (planFrame (planet w) (cam w) cartesian look up)
      (seq 0 (S (_numFrames (cam w)))).
Proof.
  intros Hlen. unfold planFlight. cbn [cam with_cam set_flight _framesArr].
  pose proof (plan_loop (planFrame (planet w) (cam w) cartesian look up)
                (_framesArr (cam w)) (S (_numFrames (cam w))) 0) as H.
  cbn [seq map app Nat.add] in H. rewrite drop_0 in H.
  cbn [seq]. rewrite H. rewrite drop_ge by exact Hlen.
  rewrite app_nil_r. reflexivity.
Qed.

Lemma planFlight_fixed (w : World) (cartesian : Vec3.t) (look : option Look)
    (up : option Vec3.t) :
  fixed_part (planFlight w cartesian look up) = fixed_part w.
Proof. reflexivity. Qed.

(** *** Callbacks *)

Lemma flyCartesian_eq (w : World) (cartesian : Vec3.t) (look : option Look)
    (up : option Vec3.t) (completeCallback startCallback : option Callback) :
  flyCartesian w cartesian look up completeCallback startCallback
  = let w1 := stopFlying w in
    let w2 := with_cam w1 (set_completeCallback (cam w1) completeCallback) in
    planFlight (match startCallback with
                | Some s => call s w2
                | None => w2
                end) cartesian look up.
Proof. reflexivity. Qed.

Lemma call_fly_eq (tag : nat) (cartesian : Vec3.t) (look : option Look)
    (up : option Vec3.t) (completeCallback startCallback : option Callback)
    (w : World) :
  call (CbFlyCartesian tag cartesian look up completeCallback startCallback) w
  = flyCartesian (emit (EvCallback tag) w) cartesian look up completeCallback
      startCallback.
Proof. reflexivity. Qed.

(** What a callback is trusted with when it runs at the start of a
    flight: it leaves the pose, the geodetic position, the frame count,
    the key and the planet's geometry alone, and it leaves in the frame
    array at most a full plan. *)
Lemma flyCartesian_given_start (w : World) (cartesian : Vec3.t)
    (look : option Look) (up : option Vec3.t) (cc sc : option Callback) :
  match sc with
  | Some s =>
      forall w0 : World,
        fixed_part (call s w0) = fixed_part w0 /\
        ((length (_framesArr (cam w0)) <= S (_numFrames (cam w0)))%nat ->
         (length (_framesArr (cam (call s w0))) <= S (_numFrames (cam w0)))%nat)
  | None => True
  end ->
  let w' := flyCartesian w cartesian look up cc sc in
  fixed_part w' = fixed_part w /\
  _framesArr (cam w')
  = map (planFrame (planet w) (cam w) cartesian look up)
      (seq 0 (S (_numFrames (cam w)))) /\
  _flying (cam w') = true /\
  _framesCounter (cam w') = Z.of_nat (_numFrames (cam w)).
Proof.
  intros Hsc. cbv zeta. rewrite flyCartesian_eq. cbv zeta.
  set (w2 := with_cam _ _).
  assert (Hw2 : fixed_part w2 = fixed_part w) by reflexivity.
  assert (Hl2 : (length (_framesArr (cam w2)) <= S (_numFrames (cam w2)))%nat)
    by (cbn; lia).
  set (w3 := match sc with Some s => call s w2 | None => w2 end).
  assert (H3 : fixed_part w3 = fixed_part w /\
               (length (_framesArr (cam w3)) <= S (_numFrames (cam w2)))%nat).
  { subst w3. destruct sc as [s|].
    - destruct (Hsc w2) as [Hf Hl]. split; [congruence | auto].
    - split; assumption. }
  destruct H3 as [Hf3 Hl3].
  assert (HN3 : _numFrames (cam w3) = _numFrames (cam w)).
  { unfold fixed_part in Hf3. congruence. }
  assert (HN2 : _numFrames (cam w2) = _numFrames (cam w)) by reflexivity.
  split; [rewrite planFlight_fixed; exact Hf3|].
  split.
  - rewrite planFlight_frames by (rewrite HN3, <- HN2; exact Hl3).
    rewrite HN3. apply map_ext. intros i. apply planFrame_fixed. exact Hf3.
  - split; [reflexivity|]. cbn. rewrite HN3. reflexivity.
Qed.

Lemma call_invariant (cb : Callback) :
  forall w : World,
    fixed_part (call cb w) = fixed_part w /\
    ((length (_framesArr (cam w)) <= S (_numFrames (cam w)))%nat ->
     (length (_framesArr (cam (call cb w))) <= S (_numFrames (cam w)))%nat).
Proof.
  induction cb as [tag|tag|tag cartesian look up cc sc IH]
    using Callback_start_ind; intros w.
  - split; [reflexivity | intros H; exact H].
  - split; [reflexivity | intros _; cbn; lia].
  - rewrite call_fly_eq.
    destruct (flyCartesian_given_start (emit (EvCallback tag) w) cartesian
                look up cc sc) as (Hf & Hfr & _).
    { destruct sc; [exact IH | exact I]. }
    split; [exact Hf|]. intros _. rewrite Hfr.
    rewrite length_map, length_seq. cbn. lia.
Qed.

(** [flyCartesian] plans the frames [planFrame 0 .. planFrame numFrames]
    from the state it was called in, whatever the start callback does,
    and leaves the camera in flight with the cursor at [numFrames]. *)
Lemma flyCartesian_plans (w : World) (cartesian : Vec3.t)
    (look : option Look) (up : option Vec3.t) (cc sc : option Callback) :
  let w' := flyCartesian w cartesian look up cc sc in
  fixed_part w' = fixed_part w /\
  _framesArr (cam w')
  = map (planFrame (planet w) (cam w) cartesian look up)
      (seq 0 (S (_numFrames (cam w)))) /\
  InFlight w' (_numFrames (cam w)).
Proof.
  destruct (flyCartesian_given_start w cartesian look up cc sc)
    as (Hf & Hfr & Hfl & Hc).
  { destruct sc as [s|]; [intros w0; apply call_invariant | exact I]. }
  cbv zeta. split; [exact Hf|]. split; [exact Hfr|].
  assert (HN : _numFrames (cam (flyCartesian w cartesian look up cc sc))
               = _numFrames (cam w)).
  { unfold fixed_part in Hf. congruence. }
  unfold InFlight. rewrite Hfr, HN, length_map, length_seq.
  split; [exact Hfl|]. split; [exact Hc|]. split; [lia | reflexivity].
Qed.

(** With no start callback the flight request leaves the three [free]
    calls of its [stopFlying] in the trace and stores the completion
    callback. *)
Lemma flyCartesian_trace (w : World) (cartesian : Vec3.t)
    (look : option Look) (up : option Vec3.t) (cc : option Callback) :
  let w' := flyCartesian w cartesian look up cc None in
  trace w' = trace w ++ free_events (_keyLock (cam w)) /\
  _completeCallback (cam w') = cc /\
  released w'.
Proof.
  cbv zeta. rewrite flyCartesian_eq. cbv zeta.
  split; [reflexivity|]. split; [reflexivity|].
  unfold released; cbn. split; [|split]; apply free_not_held.
Qed.

(** The same with a quiet start callback, which leaves its report after
    the [free] calls. *)
Lemma flyCartesian_trace_quiet (w : World) (cartesian : Vec3.t)
    (look : option Look) (up : option Vec3.t) (cc sc : option Callback) :
  quiet sc ->
  let w' := flyCartesian w cartesian look up cc sc in
  trace w' = trace w ++ free_events (_keyLock (cam w)) ++ quiet_events sc /\
  _completeCallback (cam w') = cc.
Proof.
  intros Hq. cbv zeta. rewrite flyCartesian_eq. cbv zeta.
  destruct sc as [[tag| |]|]; try contradiction.
  - split; [|reflexivity].
    cbn [call planFlight trace with_cam emit quiet_events stopFlying free_all].
    rewrite <- app_assoc. reflexivity.
  - split; [|reflexivity]. cbn [quiet_events]. rewrite app_nil_r. reflexivity.
Qed.

(** *** Ticks of a flight *)

Lemma frame_at_cursor (arr : list Frame) (N k : nat) :
  (k <= N)%nat ->
  frame_at arr (Z.of_nat N - Z.of_nat k) = arr !! (N - k)%nat.
Proof.
  intros Hk. unfold frame_at.
  destruct (Z.ltb_spec (Z.of_nat N - Z.of_nat k) 0) as [Hneg|_]; [lia|].
  f_equal. lia.
Qed.

Lemma prepareFrame_flying (w : World) (f : Frame) :
  _flying (cam w) = true ->
  frame_at (_framesArr (cam w))
    (Z.of_nat (_numFrames (cam w)) - _framesCounter (cam w)) = Some f ->
  prepareFrame w
  = Some (if (_framesCounter (cam (applied w f)) <? 0)%Z
          then finished (applied w f) else applied w f).
Proof.
  intros Hfl Hf. unfold prepareFrame. rewrite Hfl.
  change (cam (lock_all w)) with (cam w). rewrite Hf.
  unfold applied, finished. cbv zeta.
  destruct (_ <? 0)%Z; [|reflexivity].
  destruct (_completeCallback _); reflexivity.
Qed.

(** What the flying branch leaves behind before the end-of-flight test:
    the frame is now the pose, the cursor went down by one, the three
    locks were called and the view recomputed; the plan, the callback and
    everything a plan is built from stay. *)
Lemma applied_facts (w : World) (f : Frame) :
  let w1 := applied w f in
  pose w1 = f /\
  _framesCounter (cam w1) = (_framesCounter (cam w) - 1)%Z /\
  _flying (cam w1) = _flying (cam w) /\
  _framesArr (cam w1) = _framesArr (cam w) /\
  _completeCallback (cam w1) = _completeCallback (cam w) /\
  _numFrames (cam w1) = _numFrames (cam w) /\
  _keyLock (cam w1) = _keyLock (cam w) /\
  trace w1 = trace w ++ tick_events (_keyLock (cam w)).
Proof.
  cbv zeta. unfold applied. cbv zeta. rewrite update_eq.
  destruct f as [fe fn fu fv]. unfold pose, tick_events. cbn.
  rewrite <- app_assoc. repeat split.
Qed.

Lemma tick_continues (w : World) (k : nat) :
  InFlight w (S k) ->
  exists f : Frame,
    _framesArr (cam w) !! (_numFrames (cam w) - S k)%nat = Some f /\
    prepareFrame w = Some (applied w f) /\
    InFlight (applied w f) k.
Proof.
  intros (Hfl & Hc & Hk & Hlen).
  destruct (lookup_lt_is_Some_2 (_framesArr (cam w))
              (_numFrames (cam w) - S k)) as [f Hf]; [lia|].
  exists f. split; [exact Hf|].
  destruct (applied_facts w f) as (_ & Hc1 & Hfl1 & Hfr1 & _ & HN1 & _ & _).
  split.
  - rewrite (prepareFrame_flying w f Hfl).
    + rewrite Hc1, Hc.
      destruct (Z.ltb_spec (Z.of_nat (S k) - 1) 0); [lia | reflexivity].
    + rewrite Hc, frame_at_cursor by exact Hk. exact Hf.
  - unfold InFlight. rewrite Hfl1, Hc1, Hfr1, HN1, Hc.
    split; [exact Hfl|]. split; [lia|]. split; [lia | exact Hlen].
Qed.

Lemma tick_ends (w : World) :
  InFlight w 0 ->
  exists f : Frame,
    _framesArr (cam w) !! _numFrames (cam w) = Some f /\
    prepareFrame w = Some (finished (applied w f)).
Proof.
  intros (Hfl & Hc & Hk & Hlen).
  destruct (lookup_lt_is_Some_2 (_framesArr (cam w)) (_numFrames (cam w)))
    as [f Hf]; [lia|].
  exists f. split; [exact Hf|].
  destruct (applied_facts w f) as (_ & Hc1 & _).
  rewrite (prepareFrame_flying w f Hfl).
  - rewrite Hc1, Hc. reflexivity.
  - rewrite Hc, frame_at_cursor by exact Hk. rewrite Nat.sub_0_r. exact Hf.
Qed.

Lemma ticks_snoc (j : nat) :
  forall w w' : World,
    ticks j w = Some w' -> ticks (S j) w = prepareFrame w'.
Proof.
  induction j as [|j IH]; intros w w' H.
  - injection H as <-. cbn. destruct (prepareFrame w); reflexivity.
  - cbn in H. cbn. destruct (prepareFrame w) as [w1|]; [|discriminate].
    apply (IH w1 w' H).
Qed.

(** [j] ticks of a flight that has at least [j] frames to go besides the
    last: each applies the next frame in index order and calls the three
    locks; the plan, the callback, the key and the frame count stay. *)
Lemma ticks_in_flight (j : nat) :
  forall (w : World) (k : nat),
    InFlight w k -> (j <= k)%nat ->
    exists w' : World,
      ticks j w = Some w' /\
      InFlight w' (k - j) /\
      _framesArr (cam w') = _framesArr (cam w) /\
      _completeCallback (cam w') = _completeCallback (cam w) /\
      _numFrames (cam w') = _numFrames (cam w) /\
      _keyLock (cam w') = _keyLock (cam w) /\
      trace w' = trace w ++ repeat_events j (tick_events (_keyLock (cam w))) /\
      ((0 < j)%nat ->
       _framesArr (cam w) !! (_numFrames (cam w) - k + j - 1)%nat
       = Some (pose w')).
Proof.
  induction j as [|j IH]; intros w k Hin Hjk.
  - exists w. rewrite Nat.sub_0_r, app_nil_r.
    repeat (split; [first [reflexivity | exact Hin]|]). lia.
  - destruct k as [|k]; [lia|].
    destruct (tick_continues w k Hin) as (f & Hf & Hstep & Hin1).
    destruct (applied_facts w f)
      as (Hp1 & _ & _ & Hfr1 & Hcc1 & HN1 & Hk1 & Htr1).
    destruct (IH (applied w f) k Hin1 ltac:(lia))
      as (w' & Ht & Hin' & Hfr & Hcc & HN & Hkey & Htr & Hpose).
    exists w'. cbn [ticks]. rewrite Hstep.
    split; [exact Ht|]. split; [exact Hin'|].
    split; [congruence|]. split; [congruence|]. split; [congruence|].
    split; [congruence|]. split.
    + rewrite Htr, Htr1, Hk1. cbn [repeat_events].
      rewrite <- app_assoc. reflexivity.
    + intros _. destruct j as [|j].
      * cbn in Ht. injection Ht as <-. rewrite Hp1, <- Hf. f_equal.
        destruct Hin as (_ & _ & Hle & _). lia.
      * rewrite <- Hpose by lia. rewrite Hfr1, HN1. f_equal.
        destruct Hin as (_ & _ & Hle & _). lia.
Qed.

(** The end of a flight: the locks are freed once more, the plan is
    dropped, and the stored callback, if any, runs before its slot is
    cleared. *)
Lemma finished_facts (w : World) :
  fixed_part (finished w) = fixed_part w /\
  (_completeCallback (cam w) = None ->
   finished w = stopFlying w) /\
  (forall cb : Callback,
      _completeCallback (cam w) = Some cb ->
      finished w
      = with_cam (call cb (stopFlying w))
          (set_completeCallback (cam (call cb (stopFlying w))) None)).
Proof.
  unfold finished. cbv zeta.
  change (_completeCallback (cam (stopFlying w)))
    with (_completeCallback (cam w)).
  split; [|split].
  - destruct (_completeCallback (cam w)) as [cb|]; [|reflexivity].
    destruct (call_invariant cb (stopFlying w)) as [H _].
    unfold fixed_part in *. cbn in *. exact H.
  - intros ->. reflexivity.
  - intros cb ->. reflexivity.
Qed.

(** A flight in progress runs to its end: after as many ticks as the
    cursor counts plus one, [prepareFrame] has ended the flight on the
    last frame of the plan. *)
Lemma flight_completes (w : World) (k : nat) :
  InFlight w k ->
  exists (wk : World) (f : Frame),
    ticks k w = Some wk /\
    ticks (S k) w = Some (finished (applied wk f)) /\
    _framesArr (cam w) !! _numFrames (cam w) = Some f /\
    _completeCallback (cam wk) = _completeCallback (cam w) /\
    _keyLock (cam wk) = _keyLock (cam w) /\
    trace wk = trace w ++ repeat_events k (tick_events (_keyLock (cam w))).
Proof.
  intros Hin.
  destruct (ticks_in_flight k w k Hin ltac:(lia))
    as (wk & Ht & Hin' & Hfr & Hcc & HN & Hkey & Htr & _).
  rewrite Nat.sub_diag in Hin'.
  destruct (tick_ends wk Hin') as (f & Hf & Hend).
  exists wk, f. split; [exact Ht|].
  split; [rewrite (ticks_snoc k w wk Ht); exact Hend|].
  split; [rewrite <- Hfr, <- HN; exact Hf|].
  split; [exact Hcc|]. split; [exact Hkey | exact Htr].
Qed.

(** *** Reading the trace *)

Lemma lock_calls_app (s : Subsystem) (t1 t2 : list Event) :
  lock_calls s (t1 ++ t2) = (lock_calls s t1 + lock_calls s t2)%nat.
Proof. unfold lock_calls. rewrite List.filter_app, length_app. reflexivity. Qed.

Lemma free_calls_app (s : Subsystem) (t1 t2 : list Event) :
  free_calls s (t1 ++ t2) = (free_calls s t1 + free_calls s t2)%nat.
Proof. unfold free_calls. rewrite List.filter_app, length_app. reflexivity. Qed.

Lemma callbacks_app (t1 t2 : list Event) :
  callbacks (t1 ++ t2) = callbacks t1 ++ callbacks t2.
Proof.
  induction t1 as [|e t1 IH]; [reflexivity|].
  destruct e; cbn; rewrite IH; reflexivity.
Qed.

Lemma tick_events_calls (s : Subsystem) (k : Key) :
  lock_calls s (tick_events k) = 1%nat /\ free_calls s (tick_events k) = 0%nat.
Proof. destruct s; split; reflexivity. Qed.

Lemma free_events_calls (s : Subsystem) (k : Key) :
  lock_calls s (free_events k) = 0%nat /\ free_calls s (free_events k) = 1%nat.
Proof. destruct s; split; reflexivity. Qed.

Lemma quiet_events_calls (s : Subsystem) (cb : option Callback) :
  lock_calls s (quiet_events cb) = 0%nat /\
  free_calls s (quiet_events cb) = 0%nat.
Proof. destruct cb as [[]|]; split; reflexivity. Qed.

Lemma repeat_tick_calls (s : Subsystem) (k : Key) (j : nat) :
  lock_calls s (repeat_events j (tick_events k)) = j /\
  free_calls s (repeat_events j (tick_events k)) = 0%nat /\
  callbacks (repeat_events j (tick_events k)) = [] /\
  Forall (keyed_by k) (repeat_events j (tick_events k)).
Proof.
  induction j as [|j (IHl & IHf & IHc & IHk)].
  - repeat split; constructor.
  - cbn [repeat_events].
    rewrite lock_calls_app, free_calls_app, callbacks_app, IHl, IHf, IHc.
    destruct (tick_events_calls s k) as [-> ->].
    repeat split. apply Forall_app. split; [|exact IHk].
    repeat constructor.
Qed.

Lemma repeat_tick_keyed (k : Key) (j : nat) :
  Forall (keyed_by k) (repeat_events j (tick_events k)).
Proof. apply repeat_tick_calls. exact LayerLock. Qed.

Lemma free_events_keyed (k : Key) : Forall (keyed_by k) (free_events k).
Proof. repeat constructor. Qed.

Lemma tick_events_keyed (k : Key) : Forall (keyed_by k) (tick_events k).
Proof. repeat constructor. Qed.

Lemma quiet_events_keyed (k : Key) (cb : option Callback) :
  Forall (keyed_by k) (quiet_events cb).
Proof. destruct cb as [[]|]; repeat constructor. Qed.

(** *** Whole flights *)

Lemma fixed_key (w w' : World) :
  fixed_part w' = fixed_part w -> _keyLock (cam w') = _keyLock (cam w).
Proof. unfold fixed_part. congruence. Qed.

Lemma fixed_numFrames (w w' : World) :
  fixed_part w' = fixed_part w -> _numFrames (cam w') = _numFrames (cam w).
Proof. unfold fixed_part. congruence. Qed.

Lemma fixed_pose (w w' : World) :
  fixed_part w' = fixed_part w -> pose w' = pose w.
Proof. unfold fixed_part. congruence. Qed.

(** A flight requested with a quiet start callback or none and stopped
    after [j] ticks, [j] at most [numFrames]. *)
Lemma interrupted_flight (w : World) (cartesian : Vec3.t)
    (look : option Look) (up : option Vec3.t) (cc sc : option Callback)
    (j : nat) :
  quiet sc ->
  (j <= _numFrames (cam w))%nat ->
  exists wj : World,
    ticks j (flyCartesian w cartesian look up cc sc) = Some wj /\
    _flying (cam wj) = true /\
    trace (stopFlying wj)
    = trace w ++ free_events (_keyLock (cam w)) ++ quiet_events sc
      ++ repeat_events j (tick_events (_keyLock (cam w)))
      ++ free_events (_keyLock (cam w)).
Proof.
  intros Hqs Hj.
  destruct (flyCartesian_plans w cartesian look up cc sc)
    as (Hfix & _ & Hin).
  destruct (flyCartesian_trace_quiet w cartesian look up cc sc Hqs)
    as (Htr0 & _).
  destruct (ticks_in_flight j _ _ Hin Hj)
    as (wj & Ht & Hinj & _ & _ & _ & Hkey & Htr & _).
  exists wj. split; [exact Ht|]. split; [apply Hinj|].
  cbn [stopFlying free_all trace with_cam cam].
  rewrite Htr, Htr0, Hkey, (fixed_key _ _ Hfix).
  rewrite <- !app_assoc. reflexivity.
Qed.

(** A flight requested with quiet callbacks or none and run to its
    end. *)
Lemma completed_flight (w : World) (cartesian : Vec3.t)
    (look : option Look) (up : option Vec3.t) (cc sc : option Callback) :
  quiet cc -> quiet sc ->
  exists wN : World,
    ticks (S (_numFrames (cam w))) (flyCartesian w cartesian look up cc sc)
    = Some wN /\
    _flying (cam wN) = false /\
    _completeCallback (cam wN) = None /\
    released wN /\
    trace wN
    = trace w ++ free_events (_keyLock (cam w)) ++ quiet_events sc
      ++ repeat_events (_numFrames (cam w)) (tick_events (_keyLock (cam w)))
      ++ tick_events (_keyLock (cam w))
      ++ free_events (_keyLock (cam w))
      ++ quiet_events cc.
Proof.
  intros Hq Hqs.
  destruct (flyCartesian_plans w cartesian look up cc sc)
    as (Hfix & _ & Hin).
  destruct (flyCartesian_trace_quiet w cartesian look up cc sc Hqs)
    as (Htr0 & Hcc0).
  destruct (flight_completes _ _ Hin)
    as (wk & f & _ & Hend & _ & Hcck & Hkeyk & Htrk).
  destruct (applied_facts wk f)
    as (_ & _ & _ & _ & Hcca & _ & Hkeya & Htra).
  destruct (finished_facts (applied wk f)) as (_ & Hnone & Hsome).
  exists (finished (applied wk f)). split; [exact Hend|].
  assert (Hk : _keyLock (cam wk) = _keyLock (cam w))
    by (rewrite Hkeyk; apply fixed_key; exact Hfix).
  assert (Htr : trace (stopFlying (applied wk f))
                = trace w ++ free_events (_keyLock (cam w))
                  ++ quiet_events sc
                  ++ repeat_events (_numFrames (cam w))
                       (tick_events (_keyLock (cam w)))
                  ++ tick_events (_keyLock (cam w))
                  ++ free_events (_keyLock (cam w))).
  { cbn [stopFlying free_all trace with_cam cam].
    rewrite Htra, Htrk, Htr0, Hkeya, Hk, (fixed_key _ _ Hfix).
    rewrite <- !app_assoc. reflexivity. }
  rewrite Hcck, Hcc0 in Hcca.
  destruct cc as [[tag| |]|]; try contradiction.
  - rewrite (Hsome _ Hcca). cbn [call].
    split; [reflexivity|]. split; [reflexivity|].
    split; [apply stopFlying_released|].
    cbn [trace with_cam emit quiet_events]. rewrite Htr.
    rewrite <- !app_assoc. reflexivity.
  - rewrite (Hnone Hcca).
    split; [reflexivity|]. split; [exact Hcca|].
    split; [apply stopFlying_released|].
    rewrite Htr. cbn [quiet_events]. rewrite !app_nil_r. reflexivity.
Qed.

(** C2, as the code has it. A flight requested by [flyCartesian] (with
    callbacks that are quiet, or none) acquires nothing
    at the request, which only calls [free] once on each subsystem; every
    tick of the flight calls [lock] once on each subsystem, and the end of
    the flight, be it [stopFlying] after [j] ticks or the last tick, calls
    [free] once on each.  So an interrupted flight makes [j] lock calls and
    2 free calls per subsystem, a completed one [numFrames + 1] lock calls
    and 2 free calls; all carry the camera's key, and afterwards the key
    holds none of the three locks. *)
Theorem flight_lock_calls (w : World) (cartesian : Vec3.t)
    (look : option Look) (up : option Vec3.t) (cc sc : option Callback) :
  quiet cc -> quiet sc ->
  let w0 := flyCartesian w cartesian look up cc sc in
  (forall j : nat,
      (j <= _numFrames (cam w))%nat ->
      exists (wj : World) (t : list Event),
        ticks j w0 = Some wj /\
        trace (stopFlying wj) = trace w ++ t /\
        Forall (keyed_by (_keyLock (cam w))) t /\
        released (stopFlying wj) /\
        forall s : Subsystem, lock_calls s t = j /\ free_calls s t = 2%nat) /\
  (exists (wN : World) (t : list Event),
      ticks (S (_numFrames (cam w))) w0 = Some wN /\
      _flying (cam wN) = false /\
      trace wN = trace w ++ t /\
      Forall (keyed_by (_keyLock (cam w))) t /\
      released wN /\
      forall s : Subsystem,
        lock_calls s t = S (_numFrames (cam w)) /\ free_calls s t = 2%nat).
Proof.
  intros Hq Hqs. cbv zeta. split.
  - intros j Hj.
    destruct (interrupted_flight w cartesian look up cc sc j Hqs Hj)
      as (wj & Ht & _ & Htr).
    eexists wj, _. split; [exact Ht|]. split; [exact Htr|].
    split.
    { repeat (apply Forall_app; split);
        first [apply free_events_keyed | apply repeat_tick_keyed
              | apply quiet_events_keyed]. }
    split; [apply stopFlying_released|].
    intros s. rewrite !lock_calls_app, !free_calls_app.
    destruct (free_events_calls s (_keyLock (cam w))) as [-> ->].
    destruct (quiet_events_calls s sc) as [-> ->].
    destruct (repeat_tick_calls s (_keyLock (cam w)) j) as (-> & -> & _).
    split; lia.
  - destruct (completed_flight w cartesian look up cc sc Hq Hqs)
      as (wN & Ht & Hfl & _ & Hrel & Htr).
    eexists wN, _. split; [exact Ht|]. split; [exact Hfl|].
    split; [exact Htr|]. split.
    { repeat (apply Forall_app; split);
        first [apply free_events_keyed | apply repeat_tick_keyed
              | apply tick_events_keyed | apply quiet_events_keyed]. }
    split; [exact Hrel|].
    intros s. rewrite !lock_calls_app, !free_calls_app.
    destruct (free_events_calls s (_keyLock (cam w))) as [-> ->].
    destruct (tick_events_calls s (_keyLock (cam w))) as [-> ->].
    destruct (quiet_events_calls s cc) as [-> ->].
    destruct (quiet_events_calls s sc) as [-> ->].
    destruct (repeat_tick_calls s (_keyLock (cam w)) (_numFrames (cam w)))
      as (-> & -> & _).
    split; lia.
Qed.

(** C4, as the code has it. Calling [stopFlying] twice leaves the camera
    and the three locks exactly as calling it once does: not flying, no
    frames, cursor -1, the key holding none of the locks; neither call
    runs a callback.  Each call does call [free] on each of the three
    locks, the second time on locks the key no longer holds. *)
Theorem stopFlying_twice (w : World) :
  let w1 := stopFlying w in
  let w2 := stopFlying w1 in
  cam w2 = cam w1 /\
  planet w2 = planet w1 /\
  _flying (cam w1) = false /\
  _framesArr (cam w1) = [] /\
  _framesCounter (cam w1) = (-1)%Z /\
  released w1 /\
  trace w1 = trace w ++ free_events (_keyLock (cam w)) /\
  trace w2 = trace w1 ++ free_events (_keyLock (cam w)) /\
  callbacks (trace w2) = callbacks (trace w).
Proof.
  cbv zeta. split; [reflexivity|]. split.
  { cbn. rewrite !free_free. reflexivity. }
  split; [reflexivity|]. split; [reflexivity|]. split; [reflexivity|].
  split; [apply stopFlying_released|].
  split; [reflexivity|]. split; [reflexivity|].
  cbn [stopFlying free_all trace with_cam cam].
  rewrite !callbacks_app. cbn. rewrite !app_nil_r. reflexivity.
Qed.

(** The callbacks seen by the end of a flight in progress whose slot is
    empty: none beyond those already seen. *)
Lemma flight_runs_out (w : World) (k : nat) :
  InFlight w k ->
  _completeCallback (cam w) = None ->
  exists w' : World,
    ticks (S k) w = Some w' /\
    _flying (cam w') = false /\
    callbacks (trace w') = callbacks (trace w).
Proof.
  intros Hin Hcc.
  destruct (flight_completes _ _ Hin) as (wk & f & _ & Hend & _ & Hcck & _ & Htrk).
  destruct (applied_facts wk f) as (_ & _ & _ & _ & Hcca & _ & _ & Htra).
  destruct (finished_facts (applied wk f)) as (_ & Hnone & _).
  rewrite Hnone in Hend by congruence.
  eexists. split; [exact Hend|]. split; [reflexivity|].
  cbn [stopFlying free_all trace with_cam cam]. rewrite Htra, Htrk.
  rewrite !callbacks_app.
  destruct (repeat_tick_calls LayerLock (_keyLock (cam w)) k)
    as (_ & _ & -> & _).
  cbn. rewrite !app_nil_r. reflexivity.
Qed.

(** The end of a flight in progress whose slot holds [cb]: the flight is
    stopped, [cb] runs, and the slot is cleared after it returned. *)
Lemma flight_runs_into (w : World) (k : nat) (cb : Callback) :
  InFlight w k ->
  _completeCallback (cam w) = Some cb ->
  exists w' : World,
    ticks (S k) w
    = Some (with_cam (call cb w') (set_completeCallback (cam (call cb w')) None)) /\
    _flying (cam w') = false /\
    _numFrames (cam w') = _numFrames (cam w) /\
    callbacks (trace w') = callbacks (trace w).
Proof.
  intros Hin Hcc.
  destruct (flight_completes _ _ Hin)
    as (wk' & f & Htk & Hend & _ & Hcck & _ & Htrk).
  destruct (ticks_in_flight k w k Hin ltac:(lia))
    as (wk2 & Htk2 & _ & _ & _ & HNk2 & _ & _ & _).
  assert (wk2 = wk') as -> by congruence.
  destruct (applied_facts wk' f) as (_ & _ & _ & _ & Hcca & HNa & _ & Htra).
  destruct (finished_facts (applied wk' f)) as (_ & _ & Hsome).
  rewrite (Hsome cb) in Hend by congruence.
  exists (stopFlying (applied wk' f)). split; [exact Hend|].
  split; [reflexivity|].
  split; [change (_numFrames (cam (applied wk' f)) = _numFrames (cam w));
          congruence|].
  cbn [stopFlying free_all trace with_cam cam]. rewrite Htra, Htrk.
  rewrite !callbacks_app.
  destruct (repeat_tick_calls LayerLock (_keyLock (cam w)) k)
    as (_ & _ & -> & _).
  cbn. rewrite !app_nil_r. reflexivity.
Qed.

(** *** The two ends of the plan *)

Lemma easing_first (N : nat) : easing N 0 = 1.
Proof. unfold easing. cbn [INR]. unfold Rdiv. rewrite Rmult_0_l. ring. Qed.

Lemma easing_last (N : nat) : (0 < N)%nat -> easing N N = 0.
Proof.
  intros HN. unfold easing. unfold Rdiv.
  rewrite Rinv_r by (apply not_0_INR; lia). ring.
Qed.

Lemma length_of_unit (a : Vec3.t) : Vec3.dot a a = 1 -> Vec3.length a = 1.
Proof.
  intros H. unfold Vec3.length. unfold Vec3.dot in H. rewrite H. apply sqrt_1.
Qed.

Lemma dot_of_unit (a : Vec3.t) : Vec3.length a = 1 -> Vec3.dot a a = 1.
Proof. intros H. rewrite <- length_sq, H. ring. Qed.

(** [eye - (eye + (-n))] is [n]. *)
Lemma look_back (e n : Vec3.t) :
  Vec3.mk (Vec3.x e - Vec3.x (Vec3.add e (Vec3.negateTo n)))
    (Vec3.y e - Vec3.y (Vec3.add e (Vec3.negateTo n)))
    (Vec3.z e - Vec3.z (Vec3.add e (Vec3.negateTo n))) = n.
Proof.
  apply Vec3_eq; unfold Vec3.add, Vec3.negateTo; cbn; ring.
Qed.

Lemma normalized_cross_orthogonal (up m : Vec3.t) :
  Vec3.dot (Vec3.normalize m) (Vec3.normalize (Vec3.cross up m)) = 0.
Proof.
  unfold Vec3.dot, Vec3.normalize. cbn [Vec3.x Vec3.y Vec3.z].
  generalize (1 / Vec3.length m) (1 / Vec3.length (Vec3.cross up m)).
  intros k1 k2. unfold Vec3.cross. cbn [Vec3.x Vec3.y Vec3.z]. ring.
Qed.

(** The loop body at [d = 1] rebuilds an orthonormal start basis and puts
    the eye at the start height on the ray through the start ground
    point. *)
Lemma flightFrame_first (p : Planet) (ga gb ua va vb na nb : Vec3.t)
    (ha hb mh : R) :
  Vec3.dot na na = 1 -> Vec3.dot ua ua = 1 -> Vec3.dot na ua = 0 ->
  va = Vec3.cross na ua ->
  flightFrame p ga gb va vb na nb ha hb mh 1
  = mkFrame
      (Vec3.add
         (getRayIntersectionEllipsoid p (mkRay Vec3.ZERO (Vec3.normalize ga)))
         (Vec3.scale (Vec3.normalize ga) ha))
      na ua va.
Proof.
  intros Hn Hu Hnu ->. unfold flightFrame. cbv zeta.
  rewrite !smerp_1, look_back.
  replace (ha * 1 * 1 * 1 + mh * 3 * 1 * 1 * (1 - 1)
           + mh * 3 * 1 * (1 - 1) * (1 - 1)
           + hb * (1 - 1) * (1 - 1) * (1 - 1)) with ha by ring.
  rewrite (cross_cross_unit na ua Hn Hnu).
  rewrite (normalize_unit na (length_of_unit na Hn)).
  rewrite (normalize_unit ua (length_of_unit ua Hu)).
  reflexivity.
Qed.

(** The loop body at [d = 0], likewise for the end basis. *)
Lemma flightFrame_last (p : Planet) (ga gb ub va vb na nb : Vec3.t)
    (ha hb mh : R) :
  Vec3.dot nb nb = 1 -> Vec3.dot ub ub = 1 -> Vec3.dot nb ub = 0 ->
  vb = Vec3.cross nb ub ->
  flightFrame p ga gb va vb na nb ha hb mh 0
  = mkFrame
      (Vec3.add
         (getRayIntersectionEllipsoid p (mkRay Vec3.ZERO (Vec3.normalize gb)))
         (Vec3.scale (Vec3.normalize gb) hb))
      nb ub vb.
Proof.
  intros Hn Hu Hnu ->. unfold flightFrame. cbv zeta.
  rewrite !smerp_0, look_back.
  replace (ha * 0 * 0 * 0 + mh * 3 * 0 * 0 * (1 - 0)
           + mh * 3 * 0 * (1 - 0) * (1 - 0)
           + hb * (1 - 0) * (1 - 0) * (1 - 0)) with hb by ring.
  rewrite (cross_cross_unit nb ub Hn Hnu).
  rewrite (normalize_unit nb (length_of_unit nb Hn)).
  rewrite (normalize_unit ub (length_of_unit ub Hu)).
  reflexivity.
Qed.

Lemma planFrame_first (p : Planet) (c : Camera) (cartesian : Vec3.t)
    (look : option Look) (up : option Vec3.t) :
  StartAligned p c ->
  planFrame p c cartesian look up 0 = mkFrame (eye c) (_n c) (_u c) (_v c).
Proof.
  intros (He & Hn & Hu & Hnu & Hv). unfold planFrame. cbv zeta.
  destruct (endBasis _ _ _) as [[nb ub] vb].
  rewrite easing_first.
  rewrite (flightFrame_first p _ _ (_u c) (_v c) vb (_n c) nb _ _ _ Hn Hu Hnu Hv).
  unfold Vec3.normal in He. rewrite <- He. reflexivity.
Qed.

Lemma planFrame_last (p : Planet) (c : Camera) (cartesian : Vec3.t)
    (look : option Look) (up : option Vec3.t) :
  (0 < _numFrames c)%nat ->
  EndAligned p cartesian look up ->
  planFrame p c cartesian look up (_numFrames c)
  = endPose p cartesian look up.
Proof.
  intros HN (He & Hlen_n & Hlen_u). unfold planFrame, endPose. cbv zeta.
  fold (look_point p look).
  unfold endBasis. cbv zeta.
  set (m := Vec3.sub cartesian (look_point p look)) in *.
  set (upb := default Vec3.UP up) in *.
  rewrite (easing_last _ HN).
  rewrite (flightFrame_last p _ _ (Vec3.normalize (Vec3.cross upb m))).
  - unfold Vec3.normal in He. rewrite <- He. reflexivity.
  - apply dot_of_unit, length_normalize. exact Hlen_n.
  - apply dot_of_unit, length_normalize. exact Hlen_u.
  - apply normalized_cross_orthogonal.
  - reflexivity.
Qed.

(** C1, as the code has it. The plan of a flight has exactly
    [numFrames + 1] frames, frame [i] being the loop body at the eased
    parameter of [i]; the ticks of [prepareFrame] apply them in index
    order, tick [i + 1] making frame [i] the pose.  Frame 0 is the start
    pose and frame [numFrames] the end pose (not the reverse), for a start
    and an end aligned with the path: eye at its geodetic height on the
    ray from the centre through its ground point, orthonormal basis.
    Either end needs the end basis defined (target apart from the look
    point, up vector off the line of sight): frame 0 blends the end basis
    in with weight 0, and an undefined end basis would spoil it too. *)
Theorem flyCartesian_plan_order (w : World) (cartesian : Vec3.t)
    (look : option Look) (up : option Vec3.t) (cc sc : option Callback) :
  (0 < _numFrames (cam w))%nat ->
  let w0 := flyCartesian w cartesian look up cc sc in
  let plan := planFrame (planet w) (cam w) cartesian look up in
  length (_framesArr (cam w0)) = S (_numFrames (cam w)) /\
  (forall i : nat,
      (i <= _numFrames (cam w))%nat ->
      _framesArr (cam w0) !! i = Some (plan i)) /\
  (forall i : nat,
      (i <= _numFrames (cam w))%nat ->
      exists wi : World, ticks (S i) w0 = Some wi /\ pose wi = plan i) /\
  (StartAligned (planet w) (cam w) ->
   EndBasisDefined (planet w) cartesian look up ->
   plan 0%nat = pose w) /\
  (EndAligned (planet w) cartesian look up ->
   plan (_numFrames (cam w)) = endPose (planet w) cartesian look up).
Proof.
  intros HN. cbv zeta.
  destruct (flyCartesian_plans w cartesian look up cc sc)
    as (Hfix & Hfr & Hin).
  assert (Hlook : forall i : nat,
             (i <= _numFrames (cam w))%nat ->
             _framesArr (cam (flyCartesian w cartesian look up cc sc)) !! i
             = Some (planFrame (planet w) (cam w) cartesian look up i)).
  { intros i Hi. rewrite Hfr, list_lookup_fmap.
    rewrite lookup_seq_lt by lia. reflexivity. }
  pose proof (fixed_numFrames _ _ Hfix) as HN0.
  split; [rewrite Hfr, length_map, length_seq; reflexivity|].
  split; [exact Hlook|].
  split; [|split].
  - intros i Hi. destruct (decide (i < _numFrames (cam w))%nat) as [Hlt|Hge].
    + destruct (ticks_in_flight (S i) _ _ Hin ltac:(lia))
        as (wi & Ht & _ & _ & _ & _ & _ & _ & Hpose).
      exists wi. split; [exact Ht|].
      specialize (Hpose ltac:(lia)). rewrite HN0 in Hpose.
      replace (_numFrames (cam w) - _numFrames (cam w) + S i - 1)%nat
        with i in Hpose by lia.
      rewrite (Hlook i Hi) in Hpose. congruence.
    + assert (i = _numFrames (cam w)) as -> by lia.
      destruct (flight_completes _ _ Hin) as (wk & f & _ & Hend & Hf & _).
      exists (finished (applied wk f)). split; [exact Hend|].
      destruct (finished_facts (applied wk f)) as (Hfixf & _).
      rewrite (fixed_pose _ _ Hfixf).
      destruct (applied_facts wk f) as (-> & _).
      rewrite HN0, (Hlook _ Hi) in Hf. congruence.
  - intros Hs _. apply (planFrame_first _ _ _ _ _ Hs).
  - intros He. apply (planFrame_last _ _ _ _ _ HN He).
Qed.

End Camera.

(** *** The example planets *)

Lemma sphere_on_z (radius zc : R) :
  0 < zc ->
  cartesianToLonLat (Demo.sphere radius) (Vec3.mk 0 0 zc)
  = LonLat.mk 0 0 (zc - radius).
Proof.
  intros Hz. cbn [cartesianToLonLat Demo.sphere Vec3.x Vec3.y Vec3.z].
  assert (Hl : Vec3.length (Vec3.mk 0 0 zc) = zc).
  { unfold Vec3.length. cbn [Vec3.x Vec3.y Vec3.z].
    replace (0 * 0 + 0 * 0 + zc * zc) with (zc * zc) by ring.
    apply sqrt_square. lra. }
  rewrite Hl. unfold Demo.atan2.
  destruct (Rlt_dec 0 zc) as [_|Hn]; [|contradiction].
  replace (0 / zc) with 0 by (unfold Rdiv; ring).
  rewrite atan_0, asin_0. f_equal; ring.
Qed.

Lemma sphere_north (radius yc : R) :
  0 < yc ->
  cartesianToLonLat (Demo.sphere radius) (Vec3.mk 0 yc 0)
  = LonLat.mk 0 90 (yc - radius).
Proof.
  intros Hy. cbn [cartesianToLonLat Demo.sphere Vec3.x Vec3.y Vec3.z].
  assert (Hl : Vec3.length (Vec3.mk 0 yc 0) = yc).
  { unfold Vec3.length. cbn [Vec3.x Vec3.y Vec3.z].
    replace (0 * 0 + yc * yc + 0 * 0) with (yc * yc) by ring.
    apply sqrt_square. lra. }
  rewrite Hl. unfold Demo.atan2.
  destruct (Rlt_dec 0 0) as [Hp|_]; [lra|].
  replace (yc / yc) with 1 by (field; lra).
  rewrite asin_1. pose proof PI_neq0 as Hpi.
  f_equal; unfold Demo.DEGREES; [ring | field; exact Hpi].
Qed.


Lemma sphere_ground_equator (radius : R) :
  lonLatToCartesian (Demo.sphere radius) (LonLat.mk 0 0 0)
  = Vec3.mk 0 0 radius.
Proof.
  cbn [lonLatToCartesian Demo.sphere LonLat.lon LonLat.lat LonLat.height].
  rewrite Rmult_0_l, cos_0, sin_0. f_equal; ring.
Qed.



Lemma normalize_on_z (zc : R) :
  0 < zc -> Vec3.normalize (Vec3.mk 0 0 zc) = Vec3.mk 0 0 1.
Proof.
  intros Hz. unfold Vec3.normalize, Vec3.length. cbn [Vec3.x Vec3.y Vec3.z].
  replace (0 * 0 + 0 * 0 + zc * zc) with (zc * zc) by ring.
  rewrite sqrt_square by lra. f_equal; field; lra.
Qed.

Lemma demo_start_aligned :
  StartAligned (Demo.planet 1) (Demo.camera 1 Demo.above).
Proof.
  unfold StartAligned, Demo.camera, newPlanetCamera, Demo.above.
  cbn [_lonLat eye _n _u _v ellipsoid Demo.planet getRayIntersectionEllipsoid].
  rewrite sphere_on_z by lra.
  cbn [LonLat.lon LonLat.lat LonLat.height].
  rewrite sphere_ground_equator. unfold Vec3.normal.
  rewrite normalize_on_z by lra.
  unfold Demo.intersect, Vec3.add, Vec3.scale, Vec3.dot, Vec3.cross, Vec3.ZERO.
  cbn [origin direction Vec3.x Vec3.y Vec3.z].
  repeat split; first [lra | f_equal; lra].
Qed.

Lemma demo_end_aligned :
  EndAligned (Demo.planet 1) Demo.higher None None.
Proof.
  unfold EndAligned, Demo.higher, look_point.
  cbn [ellipsoid Demo.planet getRayIntersectionEllipsoid default].
  rewrite sphere_on_z by lra.
  cbn [LonLat.lon LonLat.lat LonLat.height].
  rewrite sphere_ground_equator. unfold Vec3.normal.
  rewrite normalize_on_z by lra.
  unfold Demo.intersect, Vec3.add, Vec3.scale, Vec3.sub, Vec3.cross,
    Vec3.ZERO, Vec3.UP, Vec3.length.
  cbn [origin direction Vec3.x Vec3.y Vec3.z].
  split; [f_equal; lra|].
  split.
  - replace (_ + _ + _) with (3 * 3) by ring. rewrite sqrt_square; lra.
  - replace (_ + _ + _) with (3 * 3) by ring. rewrite sqrt_square; lra.
Qed.

Lemma normalize_on_y (yc : R) :
  0 < yc -> Vec3.normalize (Vec3.mk 0 yc 0) = Vec3.mk 0 1 0.
Proof.
  intros Hy. unfold Vec3.normalize, Vec3.length. cbn [Vec3.x Vec3.y Vec3.z].
  replace (0 * 0 + yc * yc + 0 * 0) with (yc * yc) by ring.
  rewrite sqrt_square by lra. f_equal; field; lra.
Qed.

Lemma demo_frames : (0 < _numFrames (cam (Demo.world 1 Demo.above)))%nat.
Proof. cbn. lia. Defined.

(** *** The claims on the example planets *)

Lemma flyCartesian_plan_order_witness :
  let w := Demo.world 1 Demo.above in
  length (_framesArr (cam (flyCartesian w Demo.higher None None None None)))
  = 51%nat /\
  planFrame (planet w) (cam w) Demo.higher None None 0 = pose w /\
  planFrame (planet w) (cam w) Demo.higher None None 50
  = endPose (planet w) Demo.higher None None.
Proof.
  cbv zeta.
  destruct (flyCartesian_plan_order (Demo.world 1 Demo.above) Demo.higher
              None None None None demo_frames) as (Hlen & _ & _ & Hs & He).
  split; [exact Hlen|].
  split; [exact (Hs demo_start_aligned (proj2 demo_end_aligned))
         | exact (He demo_end_aligned)].
Defined.

(** C1, as the claim words it, fails: in the plan of the flight from two
    radii to three radii above the same ground point, frame 0 has the
    start eye and the last frame the end eye, not the other way round. *)
Lemma first_frame_is_start :
  let w0 := flyCartesian (Demo.world 1 Demo.above) Demo.higher
              None None None None in
  exists f0 fN : Frame,
    _framesArr (cam w0) !! 0%nat = Some f0 /\
    _framesArr (cam w0) !! 50%nat = Some fN /\
    f_eye f0 = Demo.above /\ f_eye fN = Demo.higher /\
    f_eye f0 <> Demo.higher /\ f_eye fN <> Demo.above.
Proof.
  cbv zeta.
  destruct (flyCartesian_plans (Demo.world 1 Demo.above) Demo.higher
              None None None None) as (_ & Hfr & _).
  exists (pose (Demo.world 1 Demo.above)),
    (endPose (Demo.planet 1) Demo.higher None None).
  split.
  { rewrite Hfr, list_lookup_fmap, lookup_seq_lt by (cbn; lia).
    cbn [fmap option_fmap option_map Nat.add]. f_equal.
    apply planFrame_first, demo_start_aligned. }
  split.
  { rewrite Hfr, list_lookup_fmap, lookup_seq_lt by (cbn; lia).
    cbn [fmap option_fmap option_map Nat.add]. f_equal.
    apply (planFrame_last (Demo.planet 1) (Demo.camera 1 Demo.above)).
    - exact demo_frames.
    - exact demo_end_aligned. }
  split; [reflexivity|]. split; [reflexivity|].
  split; cbn; unfold Demo.above, Demo.higher; intros [= Hz]; lra.
Qed.

Lemma flight_lock_calls_witness :
  exists (wN : World) (t : list Event),
    ticks 51 (flyCartesian (Demo.world 1 Demo.above) Demo.higher None None
                (Some Demo.report) None) = Some wN /\
    trace wN = t /\
    lock_calls LayerLock t = 51%nat /\ free_calls LayerLock t = 2%nat.
Proof.
  pose proof (flight_lock_calls (Demo.world 1 Demo.above) Demo.higher None
                None (Some Demo.report) None I I) as H.
  cbv zeta in H. destruct H as [_ (wN & t & Ht & _ & Htr & _ & _ & Hc)].
  exists wN, t. split; [exact Ht|]. split; [exact Htr|]. apply Hc.
Defined.

(** C2, as the claim words it, fails: the default flight of 51 frames
    calls [lock] 51 times on the layer lock and [free] twice. *)
Lemma default_flight_lock_calls :
  exists wN : World,
    ticks 51 (flyCartesian (Demo.world 1 Demo.above) Demo.higher None None
                None None) = Some wN /\
    _flying (cam wN) = false /\
    lock_calls LayerLock (trace wN) = 51%nat /\
    free_calls LayerLock (trace wN) = 2%nat /\
    lock_calls LayerLock (trace wN) <> free_calls LayerLock (trace wN).
Proof.
  destruct (completed_flight (Demo.world 1 Demo.above) Demo.higher None None
              None None I I) as (wN & Ht & Hfl & _ & _ & Htr).
  exists wN. split; [exact Ht|]. split; [exact Hfl|].
  assert (Hc : lock_calls LayerLock (trace wN) = 51%nat /\
               free_calls LayerLock (trace wN) = 2%nat).
  { rewrite Htr. rewrite !lock_calls_app, !free_calls_app.
    destruct (repeat_tick_calls LayerLock
                (_keyLock (cam (Demo.world 1 Demo.above)))
                (_numFrames (cam (Demo.world 1 Demo.above))))
      as (-> & -> & _).
    split; reflexivity. }
  destruct Hc as [Hl Hf]. rewrite Hl, Hf. repeat split. lia.
Qed.

(** C4, as the claim words it, fails: two calls of [stopFlying] in a row
    call [free] twice on each lock. *)
Lemma stopFlying_twice_frees_twice :
  let t := trace (stopFlying (stopFlying (Demo.world 1 Demo.above))) in
  free_calls LayerLock t = 2%nat /\
  free_calls TerrainLock t = 2%nat /\
  free_calls NormalMapCreator t = 2%nat /\
  ~ (free_calls LayerLock t <= 1)%nat.
Proof.
  cbv zeta. repeat split; try reflexivity.
  change (~ (2 <= 1)%nat). lia.
Qed.

Lemma updateGeodeticPosition_mercator_witness :
  _lonLatMerc (updateGeodeticPosition (Demo.planet 1)
                 (Demo.camera 1 Demo.above))
  = forwardMercator (LonLat.mk 0 0 1) /\
  _lonLatMerc (updateGeodeticPosition (Demo.planet 1)
                 (set_eye (Demo.camera 1 Demo.above) Demo.pole))
  = _lonLatMerc (Demo.camera 1 Demo.above).
Proof.
  destruct (updateGeodeticPosition_mercator (Demo.planet 1)
              (Demo.camera 1 Demo.above)) as (Hll & Hin & _).
  destruct (updateGeodeticPosition_mercator (Demo.planet 1)
              (set_eye (Demo.camera 1 Demo.above) Demo.pole))
    as (Hll' & _ & Hout).
  assert (H1 : cartesianToLonLat (Demo.sphere 1) Demo.above = LonLat.mk 0 0 1).
  { unfold Demo.above. rewrite sphere_on_z by lra. f_equal. lra. }
  assert (H2 : cartesianToLonLat (Demo.sphere 1) Demo.pole = LonLat.mk 0 90 1).
  { unfold Demo.pole. rewrite sphere_north by lra. f_equal. lra. }
  split.
  - rewrite Hin; rewrite Hll; cbn [eye Demo.camera newPlanetCamera ellipsoid
                                     Demo.planet]; rewrite H1.
    + reflexivity.
    + cbn [LonLat.lat MAX_LAT Demo.mercator]. rewrite Rabs_R0. lra.
  - apply Hout. rewrite Hll'.
    cbn [eye set_eye set_pose ellipsoid Demo.planet]. rewrite H2.
    cbn [LonLat.lat MAX_LAT Demo.mercator]. rewrite Rabs_pos_eq by lra. lra.
Defined.

(** C6, as the claim words it, fails: the direction of the move is not a
    function of the terrain point.  Two fresh cameras share the terrain
    point of the constructor; [setAltitude 200] sends the one above the
    equator to [(0, 0, 200)] and the one above the pole to
    [(0, 200, 0)]. *)
Lemma setAltitude_not_terrain_normal :
  ~ exists normalAt : Vec3.t -> Vec3.t,
      forall (w : World) (alt : R),
        eye (cam (setAltitude w alt))
        = Vec3.add (_terrainPoint (cam w))
            (Vec3.scale (normalAt (_terrainPoint (cam w))) alt).
Proof.
  intros [normalAt Hn].
  pose proof (Hn (Demo.world 1 Demo.above) 200) as Ha.
  pose proof (Hn (Demo.world 1 Demo.pole) 200) as Hp.
  rewrite setAltitude_new_eye in Ha, Hp.
  cbn [cam Demo.world Demo.camera newPlanetCamera _terrainPoint eye] in Ha, Hp.
  unfold Vec3.normal, Demo.above, Demo.pole in Ha, Hp.
  rewrite normalize_on_z in Ha by lra. rewrite normalize_on_y in Hp by lra.
  rewrite <- Hp in Ha. unfold Vec3.add, Vec3.scale in Ha.
  apply (f_equal Vec3.y) in Ha. cbn [Vec3.x Vec3.y Vec3.z] in Ha. lra.
Qed.

Lemma zero_height_is_current_height_witness :
  eye (cam (setLonLat (Demo.world 1 Demo.above) (LonLat.mk 10 20 0) None None))
  = lonLatToCartesian (Demo.sphere 1)
      (LonLat.mk 10 20 (LonLat.height (_lonLat (Demo.camera 1 Demo.above)))).
Proof.
  exact (proj2 (zero_height_is_current_height (Demo.world 1 Demo.above)
                  (LonLat.mk 10 20 0) None None None None None eq_refl)).
Defined.

(** C3, on the code. The completion callback of a flight that was itself
    requested by a completion callback is lost.  The first flight carries
    [Demo.flyBack], which asks for a second flight carrying [Demo.report].
    After 51 ticks the first flight has ended and its callback has run
    once: the second flight is under way, but [prepareFrame] has cleared
    the slot the callback had just filled.  After 51 more ticks the second
    flight has ended too, and [Demo.report] (tag 2) never ran. *)
Theorem chained_flight_callback_lost :
  let w0 := flyCartesian (Demo.world 1 Demo.above) Demo.higher None None
              (Some Demo.flyBack) None in
  exists w1 w2 : World,
    ticks 51 w0 = Some w1 /\
    callbacks (trace w1) = [1%nat] /\
    InFlight w1 50 /\
    _completeCallback (cam w1) = None /\
    ticks 51 w1 = Some w2 /\
    _flying (cam w2) = false /\
    callbacks (trace w2) = [1%nat].
Proof.
  cbv zeta.
  set (w := Demo.world 1 Demo.above).
  destruct (flyCartesian_plans w Demo.higher None None (Some Demo.flyBack) None)
    as (_ & _ & Hin).
  destruct (flyCartesian_trace w Demo.higher None None (Some Demo.flyBack))
    as (Htr0 & Hcc0 & _).
  change (_numFrames (cam w)) with 50%nat in Hin.
  destruct (flight_runs_into _ _ _ Hin Hcc0) as (wa & Hend & _ & HNa & Hcba).
  rewrite Htr0 in Hcba. cbn in Hcba.
  change (_numFrames (cam (flyCartesian w Demo.higher None None
                             (Some Demo.flyBack) None)))
    with 50%nat in HNa.
  unfold Demo.flyBack in Hend at 1 2. rewrite call_fly_eq in Hend.
  set (wb := emit (EvCallback 1) wa) in *.
  destruct (flyCartesian_plans wb Demo.above None None (Some Demo.report) None)
    as (_ & _ & Hinb).
  destruct (flyCartesian_trace wb Demo.above None None (Some Demo.report))
    as (Htrb & _ & _).
  change (_numFrames (cam wb)) with (_numFrames (cam wa)) in Hinb.
  rewrite HNa in Hinb.
  set (w1 := with_cam _ _) in Hend.
  assert (Hin1 : InFlight w1 50) by exact Hinb.
  assert (Hcb1 : callbacks (trace w1) = [1%nat]).
  { change (trace w1)
      with (trace (flyCartesian wb Demo.above None None (Some Demo.report) None)).
    rewrite Htrb. subst wb. cbn [trace emit].
    rewrite !callbacks_app, Hcba. reflexivity. }
  destruct (flight_runs_out w1 50 Hin1 eq_refl) as (w2 & Hend2 & Hfl2 & Hcb2).
  exists w1, w2. split; [exact Hend|]. split; [exact Hcb1|].
  split; [exact Hin1|]. split; [reflexivity|]. split; [exact Hend2|].
  split; [exact Hfl2|]. rewrite Hcb2. exact Hcb1.
Qed.


(** ** More of the planner *)

Lemma cross_norm (a b : Vec3.t) :
  Vec3.dot (Vec3.cross a b) (Vec3.cross a b)
  = Vec3.dot a a * Vec3.dot b b - Vec3.dot a b * Vec3.dot a b.
Proof. unfold Vec3.dot, Vec3.cross. cbn [Vec3.x Vec3.y Vec3.z]. ring. Qed.

Lemma cross_orthogonal_l (a b : Vec3.t) : Vec3.dot a (Vec3.cross a b) = 0.
Proof. unfold Vec3.dot, Vec3.cross. cbn [Vec3.x Vec3.y Vec3.z]. ring. Qed.

Lemma cross_orthogonal_r (a b : Vec3.t) : Vec3.dot b (Vec3.cross a b) = 0.
Proof. unfold Vec3.dot, Vec3.cross. cbn [Vec3.x Vec3.y Vec3.z]. ring. Qed.

(** The basis built from a line of sight [m] and an up vector, the way
    the planner, [set] and the end of the flight build it. *)
Lemma built_basis_orthonormal (up m : Vec3.t) :
  Vec3.length m <> 0 ->
  Vec3.length (Vec3.cross up m) <> 0 ->
  Orthonormal (Vec3.normalize m) (Vec3.normalize (Vec3.cross up m))
    (Vec3.cross (Vec3.normalize m) (Vec3.normalize (Vec3.cross up m))).
Proof.
  intros Hm Hu.
  assert (Hn1 : Vec3.dot (Vec3.normalize m) (Vec3.normalize m) = 1)
    by (apply dot_of_unit, length_normalize, Hm).
  assert (Hu1 : Vec3.dot (Vec3.normalize (Vec3.cross up m))
                  (Vec3.normalize (Vec3.cross up m)) = 1)
    by (apply dot_of_unit, length_normalize, Hu).
  pose proof (normalized_cross_orthogonal up m) as Hnu.
  unfold Orthonormal.
  rewrite cross_norm, cross_orthogonal_l, cross_orthogonal_r, Hn1, Hu1, Hnu.
  repeat split; ring.
Qed.

(** X1. Every frame the planning loop builds carries an orthonormal basis
    [n], [u], [v], as long as the blended line of sight is not the zero
    vector and the blended up vector is not along it. *)
Theorem flightFrame_orthonormal (p : Planet)
    (ground_a ground_b v_a v_b n_a n_b : Vec3.t) (height_a height_b max_h d : R) :
  Vec3.length (Vec3.smerp n_a n_b d) <> 0 ->
  Vec3.length (Vec3.cross (Vec3.smerp v_a v_b d) (Vec3.smerp n_a n_b d)) <> 0 ->
  let f := flightFrame p ground_a ground_b v_a v_b n_a n_b height_a height_b
             max_h d in
  Orthonormal (f_n f) (f_u f) (f_v f).
Proof.
  intros Hn Hu. cbv zeta. unfold flightFrame. cbv zeta.
  cbn [f_n f_u f_v]. rewrite look_back.
  apply built_basis_orthonormal; assumption.
Qed.

Lemma flightFrame_orthonormal_witness :
  Orthonormal
    (f_n (flightFrame (Demo.planet 1) (Vec3.mk 0 0 1) (Vec3.mk 0 0 1)
            (Vec3.mk 0 1 0) (Vec3.mk 0 1 0) (Vec3.mk 0 0 1) (Vec3.mk 0 0 1)
            1 2 2 1))
    (f_u (flightFrame (Demo.planet 1) (Vec3.mk 0 0 1) (Vec3.mk 0 0 1)
            (Vec3.mk 0 1 0) (Vec3.mk 0 1 0) (Vec3.mk 0 0 1) (Vec3.mk 0 0 1)
            1 2 2 1))
    (f_v (flightFrame (Demo.planet 1) (Vec3.mk 0 0 1) (Vec3.mk 0 0 1)
            (Vec3.mk 0 1 0) (Vec3.mk 0 1 0) (Vec3.mk 0 0 1) (Vec3.mk 0 0 1)
            1 2 2 1)).
Proof.
  apply (flightFrame_orthonormal (Demo.planet 1)); rewrite !smerp_1.
  - unfold Vec3.length. cbn [Vec3.x Vec3.y Vec3.z].
    replace (0 * 0 + 0 * 0 + 1 * 1) with 1 by ring. rewrite sqrt_1. lra.
  - unfold Vec3.length, Vec3.cross. cbn [Vec3.x Vec3.y Vec3.z].
    replace (_ + _ + _) with 1 by ring. rewrite sqrt_1. lra.
Defined.

(** *** Heights along the path *)

Lemma easing_smoothstep2 (N i : nat) :
  easing N i = smoothstep2 (1 - INR i / INR N).
Proof. reflexivity. Qed.

Lemma easing_range (N i : nat) :
  (0 < N)%nat -> (i <= N)%nat -> 0 <= easing N i <= 1.
Proof.
  intros HN Hi. rewrite easing_smoothstep2.
  pose proof (frame_fraction N i HN Hi) as [H0 H1].
  split.
  - replace 0 with (smoothstep2 0) by (unfold smoothstep2; ring).
    apply smoothstep2_mono; lra.
  - replace 1 with (smoothstep2 1) at 2 by (unfold smoothstep2; ring).
    apply smoothstep2_mono; lra.
Qed.

Lemma apexHeight_lower (an bn : Vec3.t) (height_a height_b : R) :
  Rmax height_a height_b <= apexHeight an bn height_a height_b.
Proof.
  rewrite apexHeight_unfold.
  pose proof (sqrt_pos (Rmax (1 - Vec3.dot an bn) 0 / 2)) as Hs.
  pose proof (Rmax_r 6639613 (Rmax height_a height_b)) as Hf.
  assert (0 <= 2.5 * sqrt (Rmax (1 - Vec3.dot an bn) 0 / 2)
               * (Rmax 6639613 (Rmax height_a height_b) - Rmax height_a height_b)).
  { apply Rmult_le_pos; [apply Rmult_le_pos; lra | lra]. }
  lra.
Qed.

(** X2. The apex of a flight is never below the higher endpoint.  It is
    exactly the higher endpoint when that is at or above 6639613 (the
    floor is raised to it and the bulge has nothing to add), whatever the
    separation; and for unit ground directions it is at most the higher
    endpoint plus 2.5 times what that endpoint lacks to the floor. *)
Theorem apexHeight_bounds (an bn : Vec3.t) (height_a height_b : R) :
  Rmax height_a height_b <= apexHeight an bn height_a height_b /\
  (6639613 <= Rmax height_a height_b ->
   apexHeight an bn height_a height_b = Rmax height_a height_b) /\
  (-1 <= Vec3.dot an bn ->
   apexHeight an bn height_a height_b
   <= Rmax height_a height_b
      + 2.5 * (Rmax 6639613 (Rmax height_a height_b) - Rmax height_a height_b)).
Proof.
  split; [apply apexHeight_lower|]. split.
  - intros Hhigh. rewrite apexHeight_unfold.
    rewrite (Rmax_right 6639613) by exact Hhigh. ring.
  - intros Hdot. rewrite apexHeight_unfold.
    pose proof (Rmax_r 6639613 (Rmax height_a height_b)) as Hf.
    assert (Hs : sqrt (Rmax (1 - Vec3.dot an bn) 0 / 2) <= 1).
    { apply Rle_trans with (sqrt 1); [|rewrite sqrt_1; lra].
      apply sqrt_le_1_alt. unfold Rmax. destruct (Rle_dec _ _); lra. }
    pose proof (sqrt_pos (Rmax (1 - Vec3.dot an bn) 0 / 2)) as Hp.
    nra.
Qed.

Lemma apexHeight_bounds_witness :
  apexHeight (Vec3.mk 1 0 0) (Vec3.mk 0 1 0) 7000000 1000 = Rmax 7000000 1000 /\
  apexHeight (Vec3.mk 1 0 0) (Vec3.mk 0 1 0) 1000 2000
  <= Rmax 1000 2000 + 2.5 * (Rmax 6639613 (Rmax 1000 2000) - Rmax 1000 2000).
Proof.
  split.
  - apply (apexHeight_bounds (Vec3.mk 1 0 0) (Vec3.mk 0 1 0) 7000000 1000).
    rewrite Rmax_left; lra.
  - apply (apexHeight_bounds (Vec3.mk 1 0 0) (Vec3.mk 0 1 0) 1000 2000).
    unfold Vec3.dot. cbn [Vec3.x Vec3.y Vec3.z]. lra.
Defined.

(** The cubic blend of line 378 stays between its control heights. *)
Lemma height_blend_bounds (ha hb mh d : R) :
  0 <= d <= 1 -> ha <= mh -> hb <= mh ->
  Rmin ha hb
  <= ha * d * d * d + mh * 3 * d * d * (1 - d) + mh * 3 * d * (1 - d) * (1 - d)
     + hb * (1 - d) * (1 - d) * (1 - d)
  <= mh.
Proof.
  intros [Hd0 Hd1] Ha Hb.
  set (t := 1 - d). assert (Ht : 0 <= t) by (unfold t; lra).
  assert (Hsum : d * d * d + 3 * d * d * t + 3 * d * t * t + t * t * t = 1)
    by (unfold t; ring).
  assert (H1 : 0 <= d * d * d) by (repeat apply Rmult_le_pos; lra).
  assert (H2 : 0 <= 3 * d * d * t) by (repeat apply Rmult_le_pos; lra).
  assert (H3 : 0 <= 3 * d * t * t) by (repeat apply Rmult_le_pos; lra).
  assert (H4 : 0 <= t * t * t) by (repeat apply Rmult_le_pos; lra).
  pose proof (Rmin_l ha hb) as Hml. pose proof (Rmin_r ha hb) as Hmr.
  set (m := Rmin ha hb) in *.
  set (b1 := d * d * d) in *. set (b2 := 3 * d * d * t) in *.
  set (b3 := 3 * d * t * t) in *. set (b4 := t * t * t) in *.
  replace (ha * d * d * d + mh * 3 * d * d * t + mh * 3 * d * t * t
           + hb * t * t * t)
    with (ha * b1 + mh * b2 + mh * b3 + hb * b4) by (unfold b1, b2, b3, b4; ring).
  assert (Hm : m * (b1 + b2 + b3 + b4) = m) by (rewrite Hsum; ring).
  assert (HM : mh * (b1 + b2 + b3 + b4) = mh) by (rewrite Hsum; ring).
  assert (L1 : 0 <= (ha - m) * b1) by (apply Rmult_le_pos; lra).
  assert (L2 : 0 <= (mh - m) * b2) by (apply Rmult_le_pos; lra).
  assert (L3 : 0 <= (mh - m) * b3) by (apply Rmult_le_pos; lra).
  assert (L4 : 0 <= (hb - m) * b4) by (apply Rmult_le_pos; lra).
  assert (U1 : 0 <= (mh - ha) * b1) by (apply Rmult_le_pos; lra).
  assert (U4 : 0 <= (mh - hb) * b4) by (apply Rmult_le_pos; lra).
  split; lra.
Qed.

(** X3. Along a flight the height of every frame lies between the lower
    of the two endpoint heights and the apex height: the path never dips
    under the lower endpoint and never overshoots the apex.  The eye of
    the frame stands at that height, along the normalized blend of the two
    ground points, over the point where the ray along it meets the
    ellipsoid. *)
Theorem blendedHeight_bounds (p : Planet) (c : Camera) (cartesian : Vec3.t)
    (i : nat) :
  (0 < _numFrames c)%nat -> (i <= _numFrames c)%nat ->
  let el := ellipsoid p in
  let height_a := LonLat.height (_lonLat c) in
  let lonlat_b := cartesianToLonLat el cartesian in
  let ground_a :=
    lonLatToCartesian el
      (LonLat.mk (LonLat.lon (_lonLat c)) (LonLat.lat (_lonLat c)) 0) in
  let ground_b :=
    lonLatToCartesian el
      (LonLat.mk (LonLat.lon lonlat_b) (LonLat.lat lonlat_b) 0) in
  Rmin height_a (LonLat.height lonlat_b)
  <= blendedHeight p c cartesian i
  <= apexHeight (Vec3.normal ground_a) (Vec3.normal ground_b) height_a
       (LonLat.height lonlat_b) /\
  forall (look : option Look) (up : option Vec3.t),
    f_eye (planFrame p c cartesian look up i)
    = Vec3.add
        (getRayIntersectionEllipsoid p
           (mkRay Vec3.ZERO (Vec3.normalize (blendedGround p c cartesian i))))
        (Vec3.scale (Vec3.normalize (blendedGround p c cartesian i))
           (blendedHeight p c cartesian i)).
Proof.
  intros HN Hi. cbv zeta. split; [|reflexivity].
  unfold blendedHeight. cbv zeta.
  apply height_blend_bounds.
  - apply easing_range; assumption.
  - eapply Rle_trans; [apply Rmax_l | apply apexHeight_lower].
  - eapply Rle_trans; [apply Rmax_r | apply apexHeight_lower].
Qed.

Lemma blendedHeight_bounds_witness :
  Rmin (LonLat.height (_lonLat (Demo.camera 1 Demo.above)))
    (LonLat.height (cartesianToLonLat (Demo.sphere 1) Demo.higher))
  <= blendedHeight (Demo.planet 1) (Demo.camera 1 Demo.above) Demo.higher 25.
Proof.
  apply (blendedHeight_bounds (Demo.planet 1) (Demo.camera 1 Demo.above)
           Demo.higher 25); cbn; lia.
Defined.

(** ** More of the executor *)

Section Executor.

Context {merc : Mercator}.

(** *** Ticks of an idle camera *)

Lemma prepareFrame_idle (w : World) :
  _flying (cam w) = false ->
  exists w' : World,
    prepareFrame w = Some w' /\
    _flying (cam w') = false /\
    _framesArr (cam w') = _framesArr (cam w) /\
    _framesCounter (cam w') = _framesCounter (cam w) /\
    _completeCallback (cam w') = _completeCallback (cam w) /\
    planet w' = planet w /\
    (trace w' = trace w \/ trace w' = trace w ++ [EvViewChange]) /\
    ((_insideSegment (cam w) = None \/
      ~ LonLat.height (_lonLat (cam w)) < 1000000) ->
     pose w' = pose w /\
     getAltitude w' = getHeight w /\
     trace w' = trace w).
Proof.
  intros Hfl. unfold prepareFrame. rewrite Hfl.
  simpl.
  destruct (_insideSegment (cam w)) as [seg|] eqn:Hseg.
  - destruct (Rlt_dec (LonLat.height (_lonLat (cam w))) 1000000) as [Hlow|Hhigh].
    + destruct (getTerrainPoint seg _ _ _) as [[alt pos] pt].
      simpl.
      destruct (Rlt_dec alt (minAltitude (cam w))) as [Hclamp|Hok].
      * eexists. split; [reflexivity|].
        rewrite setAltitude_moves_eye, update_eq. cbn.
        repeat (split; [first [reflexivity | exact Hfl]|]).
        split; [right; reflexivity|]. intros [H|H]; [discriminate | contradiction].
      * eexists. split; [reflexivity|]. cbn.
        repeat (split; [first [reflexivity | exact Hfl]|]).
        split; [left; reflexivity|]. intros [H|H]; [discriminate | contradiction].
    + eexists. split; [reflexivity|]. cbn.
      repeat (split; [first [reflexivity | exact Hfl]|]).
      split; [left; reflexivity|]. intros _. repeat split.
  - eexists. split; [reflexivity|]. cbn.
    repeat (split; [first [reflexivity | exact Hfl]|]).
    split; [left; reflexivity|]. intros _. repeat split.
Qed.

Lemma callbacks_view_change (t : list Event) :
  callbacks (t ++ [EvViewChange]) = callbacks t.
Proof. rewrite callbacks_app. cbn. apply app_nil_r. Qed.

Lemma calls_view_change (s : Subsystem) (t : list Event) :
  lock_calls s (t ++ [EvViewChange]) = lock_calls s t /\
  free_calls s (t ++ [EvViewChange]) = free_calls s t.
Proof. rewrite lock_calls_app, free_calls_app. cbn. lia. Qed.

(** X4. A tick of a camera that is not flying never throws and never
    touches the flight machinery: the camera stays idle, the planet and
    its locks are left alone, no lock or free call is made, no callback
    runs and the stored completion callback stays.  Without a quad node
    under the camera, or at a height of 1000000 or more, the pose stays
    too and the altitude becomes the geodetic height. *)
Theorem idle_tick_is_quiet (w : World) :
  isFlying w = false ->
  exists w' : World,
    prepareFrame w = Some w' /\
    isFlying w' = false /\
    planet w' = planet w /\
    _completeCallback (cam w') = _completeCallback (cam w) /\
    callbacks (trace w') = callbacks (trace w) /\
    (forall s : Subsystem,
        lock_calls s (trace w') = lock_calls s (trace w) /\
        free_calls s (trace w') = free_calls s (trace w)) /\
    ((_insideSegment (cam w) = None \/
      ~ LonLat.height (_lonLat (cam w)) < 1000000) ->
     pose w' = pose w /\ getAltitude w' = getHeight w /\ trace w' = trace w).
Proof.
  intros Hfl.
  destruct (prepareFrame_idle w Hfl)
    as (w' & Hp & Hfl' & _ & _ & Hcc & Hpl & Htr & Hfar).
  exists w'. split; [exact Hp|]. split; [exact Hfl'|]. split; [exact Hpl|].
  split; [exact Hcc|].
  split.
  { destruct Htr as [-> | ->]; [reflexivity | apply callbacks_view_change]. }
  split; [|exact Hfar].
  intros s. destruct Htr as [-> | ->]; [split; reflexivity|].
  apply calls_view_change.
Qed.

(** X5. The terrain clamp.  On a tick of an idle camera below height
    1000000 over a quad node, the altitude and the terrain point are the
    ones the node samples; when the sampled altitude is under
    [minAltitude], the eye is moved to the sampled terrain point plus
    [minAltitude] along the normalized eye vector, [getAltitude] answers
    [minAltitude] and the pose is recomputed; otherwise the eye stays. *)
Theorem terrain_clamp (w : World) (seg : Node) (alt : R) (pos : LonLat.t)
    (pt : Vec3.t) :
  isFlying w = false ->
  _insideSegment (cam w) = Some seg ->
  LonLat.height (_lonLat (cam w)) < 1000000 ->
  getTerrainPoint seg (eye (cam w)) (_insideSegmentPosition (cam w))
    (_terrainPoint (cam w)) = (alt, pos, pt) ->
  exists w' : World,
    prepareFrame w = Some w' /\
    _terrainPoint (cam w') = pt /\
    _insideSegmentPosition (cam w') = pos /\
    (alt < minAltitude (cam w) ->
     getAltitude w' = minAltitude (cam w) /\
     eye (cam w')
     = Vec3.add pt (Vec3.scale (Vec3.normal (eye (cam w))) (minAltitude (cam w))) /\
     _lonLat (cam w') = cartesianToLonLat (ellipsoid (planet w)) (eye (cam w')) /\
     trace w' = trace w ++ [EvViewChange]) /\
    (~ alt < minAltitude (cam w) ->
     getAltitude w' = alt /\ pose w' = pose w /\ trace w' = trace w).
Proof.
  unfold isFlying. intros Hfl Hseg Hlow Hsample. unfold prepareFrame.
  rewrite Hfl.
  simpl.
  rewrite Hseg. destruct (Rlt_dec _ 1000000) as [_|Hn]; [|contradiction].
  rewrite Hsample.
  simpl.
  destruct (Rlt_dec alt (minAltitude (cam w))) as [Hclamp|Hok].
  - eexists. split; [reflexivity|].
    rewrite setAltitude_moves_eye, update_eq. cbn.
    split; [reflexivity|]. split; [reflexivity|].
    split; [intros _; repeat split | intros Hn; contradiction].
  - eexists. split; [reflexivity|]. cbn.
    split; [reflexivity|]. split; [reflexivity|].
    split; [intros Hn; contradiction | intros _; repeat split].
Qed.

(** *** No call throws *)

Lemma InFlight_same_flight (w w' : World) (k : nat) :
  _flying (cam w') = _flying (cam w) ->
  _framesCounter (cam w') = _framesCounter (cam w) ->
  _numFrames (cam w') = _numFrames (cam w) ->
  _framesArr (cam w') = _framesArr (cam w) ->
  InFlight w k -> InFlight w' k.
Proof. unfold InFlight. intros -> -> -> ->. tauto. Qed.

Lemma stopFlying_consistent (w : World) : Consistent (stopFlying w).
Proof. intros H. discriminate. Qed.

Lemma flyCartesian_consistent (w : World) (cartesian : Vec3.t)
    (look : option Look) (up : option Vec3.t) (cc sc : option Callback) :
  Consistent (flyCartesian w cartesian look up cc sc).
Proof.
  intros _. exists (_numFrames (cam w)).
  apply (flyCartesian_plans w cartesian look up cc sc).
Qed.

Lemma call_consistent (cb : Callback) (w : World) :
  Consistent w -> Consistent (call cb w).
Proof.
  intros Hw. destruct cb as [tag|tag|tag cartesian look up cc sc].
  - exact Hw.
  - apply stopFlying_consistent.
  - rewrite call_fly_eq. apply flyCartesian_consistent.
Qed.

Lemma update_consistent (w : World) : Consistent w -> Consistent (update w).
Proof.
  intros Hw Hfl. rewrite update_eq in Hfl. destruct (Hw Hfl) as [k Hk].
  exists k. revert Hk. apply InFlight_same_flight; rewrite update_eq; reflexivity.
Qed.

Lemma setAltitude_consistent (w : World) (alt : R) :
  Consistent w -> Consistent (setAltitude w alt).
Proof.
  intros Hw. rewrite setAltitude_moves_eye. apply update_consistent.
  exact Hw.
Qed.

Lemma finished_consistent (w : World) : Consistent (finished w).
Proof.
  destruct (finished_facts w) as (_ & Hnone & Hsome).
  destruct (_completeCallback (cam w)) as [cb|] eqn:Hcc.
  - rewrite (Hsome cb eq_refl).
    pose proof (call_consistent cb (stopFlying w) (stopFlying_consistent w))
      as Hc.
    intros Hfl. destruct (Hc Hfl) as [k Hk]. exists k. exact Hk.
  - rewrite (Hnone eq_refl). apply stopFlying_consistent.
Qed.

Lemma prepareFrame_consistent (w : World) :
  Consistent w ->
  exists w' : World, prepareFrame w = Some w' /\ Consistent w'.
Proof.
  intros Hw. destruct (_flying (cam w)) eqn:Hfl.
  - destruct (Hw Hfl) as [[|k] Hk].
    + destruct (tick_ends w Hk) as (f & _ & Hend).
      eexists. split; [exact Hend | apply finished_consistent].
    + destruct (tick_continues w k Hk) as (f & _ & Hstep & Hk').
      eexists. split; [exact Hstep|]. intros _. exists k. exact Hk'.
  - destruct (prepareFrame_idle w Hfl) as (w' & Hp & Hfl' & _).
    exists w'. split; [exact Hp|]. intros H. congruence.
Qed.

(** X6. No program of camera calls makes a call throw: started on a
    camera that is idle, or flying with a complete plan and its cursor
    inside it, every sequence of fly requests, view changes, altitude
    changes, stops and ticks, with callbacks of any kind, runs to its end,
    and [prepareFrame] never reads outside the frame array. *)
Theorem run_never_throws (proj : Projection) (cmds : list Command) :
  forall w : World,
    Consistent w ->
    exists w' : World, run proj cmds w = Some w' /\ Consistent w'.
Proof.
  induction cmds as [|cmd cmds IH]; intros w Hw.
  - exists w. split; [reflexivity | exact Hw].
  - cbn [run].
    assert (Hstep : exists w1 : World,
               perform proj cmd w = Some w1 /\ Consistent w1).
    { destruct cmd; cbn [perform].
      - eexists. split; [reflexivity | apply flyCartesian_consistent].
      - eexists. split; [reflexivity | apply flyCartesian_consistent].
      - eexists. split; [reflexivity | apply flyCartesian_consistent].
      - eexists. split; [reflexivity|]. unfold viewExtent, refresh.
        apply update_consistent. intros H. discriminate.
      - eexists. split; [reflexivity|]. unfold setLonLat, refresh.
        apply update_consistent. intros H. discriminate.
      - eexists. split; [reflexivity | apply setAltitude_consistent, Hw].
      - eexists. split; [reflexivity | apply stopFlying_consistent].
      - apply prepareFrame_consistent, Hw. }
    destruct Hstep as (w1 & -> & Hw1). apply IH, Hw1.
Qed.

(** *** Requests inside callbacks *)

(** X7. A start callback that itself requests a flight: the plan that
    remains is the one of the outer request, built from the state the
    outer request was made in, but the completion callback that remains
    stored is the one of the inner request; the one passed to the outer
    request is dropped. *)
Theorem nested_start_request (w : World) (cartesian : Vec3.t)
    (look : option Look) (up : option Vec3.t) (cc : option Callback)
    (tag : nat) (cartesian' : Vec3.t) (look' : option Look)
    (up' : option Vec3.t) (cc' : option Callback) :
  let w' := flyCartesian w cartesian look up cc
              (Some (CbFlyCartesian tag cartesian' look' up' cc' None)) in
  _framesArr (cam w')
  = map (planFrame (planet w) (cam w) cartesian look up)
      (seq 0 (S (_numFrames (cam w)))) /\
  InFlight w' (_numFrames (cam w)) /\
  _completeCallback (cam w') = cc' /\
  callbacks (trace w') = callbacks (trace w) ++ [tag].
Proof.
  cbv zeta.
  destruct (flyCartesian_plans w cartesian look up cc
              (Some (CbFlyCartesian tag cartesian' look' up' cc' None)))
    as (_ & Hfr & Hin).
  split; [exact Hfr|]. split; [exact Hin|]. split; [reflexivity|].
  rewrite flyCartesian_eq. cbv zeta. rewrite call_fly_eq, flyCartesian_eq.
  cbn [trace planFlight with_cam stopFlying free_all emit cam].
  rewrite !callbacks_app. cbn. rewrite !app_nil_r. reflexivity.
Qed.

(** *** Callbacks of a flight *)

Lemma callbacks_free_events (k : Key) : callbacks (free_events k) = [].
Proof. reflexivity. Qed.

Lemma callbacks_tick_events (k : Key) : callbacks (tick_events k) = [].
Proof. reflexivity. Qed.

Lemma callbacks_repeat_ticks (k : Key) (j : nat) :
  callbacks (repeat_events j (tick_events k)) = [].
Proof. apply (repeat_tick_calls LayerLock k j). Qed.

(** X8. A flight with quiet callbacks, run to its end: the start
    callback runs once at the request, the completion callback runs once,
    on the tick that ends the flight and on no tick before, and its slot
    is empty afterwards. *)
Theorem completion_callback_once (w : World) (cartesian : Vec3.t)
    (look : option Look) (up : option Vec3.t) (cc sc : option Callback) :
  quiet cc -> quiet sc ->
  let w0 := flyCartesian w cartesian look up cc sc in
  (forall j : nat,
      (j <= _numFrames (cam w))%nat ->
      exists wj : World,
        ticks j w0 = Some wj /\
        _completeCallback (cam wj) = cc /\
        callbacks (trace wj)
        = callbacks (trace w) ++ callbacks (quiet_events sc)) /\
  exists wN : World,
    ticks (S (_numFrames (cam w))) w0 = Some wN /\
    _completeCallback (cam wN) = None /\
    callbacks (trace wN)
    = callbacks (trace w) ++ callbacks (quiet_events sc)
      ++ callbacks (quiet_events cc).
Proof.
  intros Hq Hqs. cbv zeta. split.
  - intros j Hj.
    destruct (flyCartesian_plans w cartesian look up cc sc) as (_ & _ & Hin).
    destruct (flyCartesian_trace_quiet w cartesian look up cc sc Hqs)
      as (Htr0 & Hcc0).
    destruct (ticks_in_flight j _ _ Hin Hj)
      as (wj & Ht & _ & _ & Hcc & _ & _ & Htr & _).
    exists wj. split; [exact Ht|]. split; [congruence|].
    rewrite Htr, Htr0, !callbacks_app, callbacks_repeat_ticks,
      callbacks_free_events.
    cbn [app]. rewrite app_nil_r. reflexivity.
  - destruct (completed_flight w cartesian look up cc sc Hq Hqs)
      as (wN & Ht & _ & Hcc & _ & Htr).
    exists wN. split; [exact Ht|]. split; [exact Hcc|].
    rewrite Htr, !callbacks_app, callbacks_repeat_ticks,
      callbacks_free_events, callbacks_tick_events.
    reflexivity.
Qed.

Lemma idle_ticks (m : nat) :
  forall w : World,
    _flying (cam w) = false ->
    exists w' : World,
      ticks m w = Some w' /\
      _flying (cam w') = false /\
      _completeCallback (cam w') = _completeCallback (cam w) /\
      planet w' = planet w /\
      callbacks (trace w') = callbacks (trace w).
Proof.
  induction m as [|m IH]; intros w Hfl.
  - exists w. repeat split; assumption.
  - destruct (prepareFrame_idle w Hfl)
      as (w1 & Hp & Hfl1 & _ & _ & Hcc1 & Hpl1 & Htr1 & _).
    destruct (IH w1 Hfl1) as (w' & Ht & Hfl' & Hcc' & Hpl' & Htr').
    exists w'. cbn [ticks]. rewrite Hp.
    split; [exact Ht|]. split; [exact Hfl'|]. split; [congruence|].
    split; [congruence|]. rewrite Htr'.
    destruct Htr1 as [-> | ->]; [reflexivity | apply callbacks_view_change].
Qed.

(** X9. A flight stopped by [stopFlying] before its last tick never runs
    its completion callback, whatever that callback is and however many
    ticks follow, although the callback stays in its slot. *)
Theorem stopped_flight_never_calls_back (w : World) (cartesian : Vec3.t)
    (look : option Look) (up : option Vec3.t) (cc sc : option Callback)
    (j m : nat) :
  quiet sc ->
  (j <= _numFrames (cam w))%nat ->
  exists wj w' : World,
    ticks j (flyCartesian w cartesian look up cc sc) = Some wj /\
    ticks m (stopFlying wj) = Some w' /\
    isFlying w' = false /\
    _completeCallback (cam w') = cc /\
    callbacks (trace w') = callbacks (trace w) ++ callbacks (quiet_events sc).
Proof.
  intros Hqs Hj.
  destruct (flyCartesian_plans w cartesian look up cc sc) as (_ & _ & Hin).
  destruct (flyCartesian_trace_quiet w cartesian look up cc sc Hqs)
    as (Htr0 & Hcc0).
  destruct (ticks_in_flight j _ _ Hin Hj)
    as (wj & Ht & _ & _ & Hcc & _ & _ & Htr & _).
  destruct (idle_ticks m (stopFlying wj) eq_refl)
    as (w' & Htm & Hfl & Hcc' & _ & Htr').
  exists wj, w'. split; [exact Ht|]. split; [exact Htm|].
  split; [exact Hfl|]. split.
  { rewrite Hcc'. change (_completeCallback (cam wj) = cc). congruence. }
  rewrite Htr'. cbn [stopFlying free_all trace with_cam cam].
  rewrite Htr, Htr0, !callbacks_app, callbacks_repeat_ticks,
    callbacks_free_events.
  cbn [app callbacks]. rewrite !app_nil_r. reflexivity.
Qed.

(** X10. How long a flight lasts: with quiet callbacks the camera is
    flying after the request and after each of the first [numFrames]
    ticks, and no longer after tick [numFrames + 1]. *)
Theorem flight_duration (w : World) (cartesian : Vec3.t)
    (look : option Look) (up : option Vec3.t) (cc sc : option Callback) :
  quiet cc -> quiet sc ->
  let w0 := flyCartesian w cartesian look up cc sc in
  (forall j : nat,
      (j <= _numFrames (cam w))%nat ->
      exists wj : World, ticks j w0 = Some wj /\ isFlying wj = true) /\
  exists wN : World,
    ticks (S (_numFrames (cam w))) w0 = Some wN /\ isFlying wN = false.
Proof.
  intros Hq Hqs. cbv zeta. split.
  - intros j Hj.
    destruct (interrupted_flight w cartesian look up cc sc j Hqs Hj)
      as (wj & Ht & Hfl & _).
    exists wj. split; [exact Ht | exact Hfl].
  - destruct (completed_flight w cartesian look up cc sc Hq Hqs)
      as (wN & Ht & Hfl & _).
    exists wN. split; [exact Ht | exact Hfl].
Qed.

(** X11. A flight request does not move the camera: with callbacks that
    only notify, stop the flight or request further flights (the three
    shapes of [Callback]), the pose, the geodetic position, the key and
    the frame count are after [flyCartesian] what they were before; the
    camera moves on the ticks only.  A callback that set the pose itself
    is outside [Callback] and outside this statement. *)
Theorem flyCartesian_keeps_pose (w : World) (cartesian : Vec3.t)
    (look : option Look) (up : option Vec3.t) (cc sc : option Callback) :
  let w' := flyCartesian w cartesian look up cc sc in
  pose w' = pose w /\
  getLonLat w' = getLonLat w /\
  _keyLock (cam w') = _keyLock (cam w) /\
  _numFrames (cam w') = _numFrames (cam w).
Proof.
  cbv zeta.
  destruct (flyCartesian_plans w cartesian look up cc sc) as (Hfix & _).
  unfold fixed_part, getLonLat in *. repeat split; congruence.
Qed.

(** X12. [update] is idempotent on the camera: recomputing the pose a
    second time changes no field of the camera and nothing of the planet;
    it only sends the view-change event again. *)
Theorem update_idempotent (w : World) :
  cam (update (update w)) = cam (update w) /\
  planet (update (update w)) = planet w /\
  trace (update (update w)) = trace w ++ [EvViewChange; EvViewChange].
Proof.
  rewrite (update_eq (update w)). rewrite !update_eq. cbn.
  rewrite <- app_assoc. repeat split.
  destruct (Rle_dec _ _); reflexivity.
Qed.

(** *** The locks during a flight *)

Lemma same_for_others_refl (k : Key) (p : Planet) : same_for_others k p p.
Proof. intros k' _. tauto. Qed.

Lemma same_for_others_trans (k : Key) (p1 p2 p3 : Planet) :
  same_for_others k p1 p2 -> same_for_others k p2 p3 ->
  same_for_others k p1 p3.
Proof.
  intros H12 H23 k' Hk. destruct (H12 k' Hk) as (A1 & A2 & A3).
  destruct (H23 k' Hk) as (B1 & B2 & B3). tauto.
Qed.

Lemma lock_others (l : Lock.t) (k k' : Key) :
  k' <> k -> (k' ∈ l <-> k' ∈ Lock.lock l k).
Proof.
  intros Hk. unfold Lock.lock. rewrite elem_of_union, elem_of_singleton. tauto.
Qed.

Lemma free_others (l : Lock.t) (k k' : Key) :
  k' <> k -> (k' ∈ l <-> k' ∈ Lock.free l k).
Proof.
  intros Hk. unfold Lock.free.
  rewrite elem_of_difference, elem_of_singleton. tauto.
Qed.

Lemma lock_held (l : Lock.t) (k : Key) : k ∈ Lock.lock l k.
Proof.
  unfold Lock.lock. rewrite elem_of_union, elem_of_singleton. tauto.
Qed.

Lemma lock_all_locks (w : World) :
  holds (_keyLock (cam w)) (planet (lock_all w)) /\
  same_for_others (_keyLock (cam w)) (planet w) (planet (lock_all w)).
Proof.
  split.
  - unfold holds; cbn. repeat split; apply lock_held.
  - intros k' Hk. cbn. repeat split; apply lock_others; exact Hk.
Qed.

Lemma stopFlying_locks (w : World) :
  same_for_others (_keyLock (cam w)) (planet w) (planet (stopFlying w)).
Proof. intros k' Hk. cbn. repeat split; apply free_others; exact Hk. Qed.

Lemma applied_planet (w : World) (f : Frame) :
  planet (applied w f) = planet (lock_all w).
Proof. unfold applied. cbv zeta. rewrite update_eq. reflexivity. Qed.

Lemma ticks_locks (j : nat) :
  forall (w : World) (k : nat),
    InFlight w k -> (j <= k)%nat ->
    exists w' : World,
      ticks j w = Some w' /\
      same_for_others (_keyLock (cam w)) (planet w) (planet w') /\
      (holds (_keyLock (cam w)) (planet w) \/ (0 < j)%nat ->
       holds (_keyLock (cam w)) (planet w')).
Proof.
  induction j as [|j IH]; intros w k Hin Hj.
  - exists w. split; [reflexivity|]. split; [apply same_for_others_refl|].
    intros [H|H]; [exact H | lia].
  - destruct k as [|k]; [lia|].
    destruct (tick_continues w k Hin) as (f & _ & Hstep & Hin1).
    destruct (applied_facts w f) as (_ & _ & _ & _ & _ & _ & Hkey & _).
    destruct (IH (applied w f) k Hin1 ltac:(lia)) as (w' & Ht & Hsame & Hheld).
    destruct (lock_all_locks w) as [Hl Ho].
    rewrite Hkey, applied_planet in Hsame, Hheld.
    exists w'. cbn [ticks]. rewrite Hstep. split; [exact Ht|].
    split; [exact (same_for_others_trans _ _ _ _ Ho Hsame)|].
    intros _. apply Hheld. left. exact Hl.
Qed.

Lemma flyCartesian_planet (w : World) (cartesian : Vec3.t)
    (look : option Look) (up : option Vec3.t) (cc sc : option Callback) :
  quiet sc ->
  planet (flyCartesian w cartesian look up cc sc) = planet (stopFlying w).
Proof.
  intros Hq. rewrite flyCartesian_eq. cbv zeta.
  destruct sc as [[tag| |]|]; try contradiction; reflexivity.
Qed.

(** X13. The locks of a flight.  The request itself takes no lock: after
    [flyCartesian] (quiet start callback) the key holds none of the three.
    From the first tick to the last tick before the end the key holds all
    three, and a [stopFlying] then leaves it holding none.  At no point is
    the claim of any other key on any of the three locks changed. *)
Theorem flight_holds_locks (w : World) (cartesian : Vec3.t)
    (look : option Look) (up : option Vec3.t) (cc sc : option Callback) :
  quiet sc ->
  let k := _keyLock (cam w) in
  let w0 := flyCartesian w cartesian look up cc sc in
  released w0 /\
  same_for_others k (planet w) (planet w0) /\
  forall j : nat,
    (0 < j)%nat -> (j <= _numFrames (cam w))%nat ->
    exists wj : World,
      ticks j w0 = Some wj /\
      holds k (planet wj) /\
      same_for_others k (planet w) (planet wj) /\
      released (stopFlying wj) /\
      same_for_others k (planet w) (planet (stopFlying wj)).
Proof.
  intros Hq. cbv zeta.
  destruct (flyCartesian_plans w cartesian look up cc sc) as (Hfix & _ & Hin).
  pose proof (fixed_key _ _ Hfix) as Hkey.
  pose proof (flyCartesian_planet w cartesian look up cc sc Hq) as Hpl.
  assert (Hsame0 : same_for_others (_keyLock (cam w)) (planet w)
                     (planet (flyCartesian w cartesian look up cc sc))).
  { rewrite Hpl. apply stopFlying_locks. }
  split.
  { unfold released. rewrite Hkey, Hpl. apply stopFlying_released. }
  split; [exact Hsame0|].
  intros j Hj0 Hj.
  destruct (ticks_locks j _ _ Hin Hj) as (wj & Ht & Hsame & Hheld).
  destruct (ticks_in_flight j _ _ Hin Hj)
    as (wj' & Ht' & _ & _ & _ & _ & Hkeyj & _).
  assert (wj' = wj) as -> by congruence.
  rewrite Hkey in Hsame, Hheld, Hkeyj.
  exists wj. split; [exact Ht|].
  split; [apply Hheld; right; exact Hj0|].
  assert (Hsamej : same_for_others (_keyLock (cam w)) (planet w) (planet wj))
    by exact (same_for_others_trans _ _ _ _ Hsame0 Hsame).
  split; [exact Hsamej|].
  split; [apply stopFlying_released|].
  apply (same_for_others_trans _ _ _ _ Hsamej).
  rewrite <- Hkeyj. apply stopFlying_locks.
Qed.

(** *** Placing the camera *)



End Executor.

(** *** Viewing an extent *)







Section Views.

Context {merc : Mercator}.


End Views.

(** *** Terrain following is off during a flight *)

Section Stale.

Context {merc : Mercator}.

Lemma applied_terrain (w : World) (f : Frame) :
  _terrainAltitude (cam (applied w f)) = _terrainAltitude (cam w) /\
  _terrainPoint (cam (applied w f)) = _terrainPoint (cam w).
Proof. unfold applied. cbv zeta. rewrite update_eq. split; reflexivity. Qed.

Lemma ticks_terrain (j : nat) :
  forall (w : World) (k : nat),
    InFlight w k -> (j <= k)%nat ->
    exists w' : World,
      ticks j w = Some w' /\
      _terrainAltitude (cam w') = _terrainAltitude (cam w) /\
      _terrainPoint (cam w') = _terrainPoint (cam w).
Proof.
  induction j as [|j IH]; intros w k Hin Hj.
  - exists w. repeat split.
  - destruct k as [|k]; [lia|].
    destruct (tick_continues w k Hin) as (f & _ & Hstep & Hin1).
    destruct (applied_terrain w f) as [Ha Hp].
    destruct (IH (applied w f) k Hin1 ltac:(lia)) as (w' & Ht & Ha' & Hp').
    exists w'. cbn [ticks]. rewrite Hstep.
    split; [exact Ht|]. split; congruence.
Qed.

(** X17. Terrain following is off during a flight: from the request
    (quiet start callback) through every tick before the one that ends
    the flight, the terrain altitude that [getAltitude] answers and the
    terrain point stay what they were when the flight was requested; no
    tick of a flight samples the terrain or clamps the altitude. *)
Theorem flight_keeps_altitude (w : World) (cartesian : Vec3.t)
    (look : option Look) (up : option Vec3.t) (cc sc : option Callback)
    (j : nat) :
  quiet sc ->
  (j <= _numFrames (cam w))%nat ->
  exists wj : World,
    ticks j (flyCartesian w cartesian look up cc sc) = Some wj /\
    getAltitude wj = getAltitude w /\
    _terrainPoint (cam wj) = _terrainPoint (cam w).
Proof.
  intros Hq Hj.
  destruct (flyCartesian_plans w cartesian look up cc sc) as (_ & _ & Hin).
  destruct (ticks_terrain j _ _ Hin Hj) as (wj & Ht & Ha & Hp).
  exists wj. split; [exact Ht|]. unfold getAltitude. rewrite Ha, Hp.
  rewrite flyCartesian_eq. cbv zeta.
  destruct sc as [[tag| |]|]; try contradiction; split; reflexivity.
Qed.

End Stale.

(** *** The properties on the example planets *)




Lemma demo_height :
  LonLat.height (_lonLat (Demo.camera 1 Demo.above)) = 1.
Proof.
  cbn [_lonLat Demo.camera newPlanetCamera ellipsoid Demo.planet].
  unfold Demo.above. rewrite sphere_on_z by lra.
  cbn [LonLat.height]. lra.
Qed.

Lemma demo_minAltitude : minAltitude (Demo.camera 1 Demo.above) = 50.
Proof.
  cbn [minAltitude Demo.camera newPlanetCamera]. unfold or_number.
  destruct (Req_dec_T 0 0) as [_|Hn]; [reflexivity | contradiction].
Qed.

Lemma idle_tick_is_quiet_witness :
  exists w' : World,
    prepareFrame (Demo.world 1 Demo.above) = Some w' /\
    isFlying w' = false /\
    pose w' = pose (Demo.world 1 Demo.above).
Proof.
  destruct (idle_tick_is_quiet (Demo.world 1 Demo.above) eq_refl)
    as (w' & Hp & Hfl & _ & _ & _ & _ & Hfar).
  exists w'. split; [exact Hp|]. split; [exact Hfl|].
  apply Hfar. left. reflexivity.
Defined.

Lemma terrain_clamp_witness :
  exists w' : World,
    prepareFrame Scene.overTerrain = Some w' /\
    getAltitude w' = 50 /\
    eye (cam w') = Vec3.mk 0 0 51.
Proof.
  assert (Hlow : LonLat.height (_lonLat (cam Scene.overTerrain)) < 1000000).
  { change (LonLat.height (_lonLat (Demo.camera 1 Demo.above)) < 1000000).
    rewrite demo_height. lra. }
  assert (Hmin : minAltitude (cam Scene.overTerrain) = 50)
    by exact demo_minAltitude.
  destruct (terrain_clamp Scene.overTerrain Scene.flat 10
              (_insideSegmentPosition (cam Scene.overTerrain))
              (Vec3.mk 0 0 1) eq_refl eq_refl Hlow eq_refl)
    as (w' & Hp & _ & _ & Hclamp & _).
  destruct Hclamp as (Halt & Heye & _); [rewrite Hmin; lra|].
  exists w'. split; [exact Hp|]. split; [rewrite Halt; exact Hmin|].
  rewrite Heye, Hmin.
  change (eye (cam Scene.overTerrain)) with (Vec3.mk 0 0 2).
  unfold Vec3.normal. rewrite normalize_on_z by lra.
  unfold Vec3.add, Vec3.scale. cbn [Vec3.x Vec3.y Vec3.z]. f_equal; lra.
Defined.

Lemma demo_consistent : Consistent (Demo.world 1 Demo.above).
Proof. intros H. discriminate. Defined.

Lemma run_never_throws_witness :
  exists w' : World,
    run Scene.view Scene.program (Demo.world 1 Demo.above) = Some w'.
Proof.
  destruct (run_never_throws Scene.view Scene.program (Demo.world 1 Demo.above)
              demo_consistent) as (w' & Hr & _).
  exists w'. exact Hr.
Defined.

Lemma completion_callback_once_witness :
  exists wN : World,
    ticks 51 (flyCartesian (Demo.world 1 Demo.above) Demo.higher None None
                (Some Demo.report) None) = Some wN /\
    _completeCallback (cam wN) = None /\
    callbacks (trace wN) = [2%nat].
Proof.
  pose proof (completion_callback_once (Demo.world 1 Demo.above) Demo.higher
                None None (Some Demo.report) None I I) as H.
  cbv zeta in H. destruct H as (_ & wN & Ht & Hcc & Htr).
  exists wN. split; [exact Ht|]. split; [exact Hcc | exact Htr].
Defined.

Lemma stopped_flight_never_calls_back_witness :
  exists wj w' : World,
    ticks 7 (flyCartesian (Demo.world 1 Demo.above) Demo.higher None None
               (Some Demo.report) None) = Some wj /\
    ticks 100 (stopFlying wj) = Some w' /\
    callbacks (trace w') = [].
Proof.
  destruct (stopped_flight_never_calls_back (Demo.world 1 Demo.above)
              Demo.higher None None (Some Demo.report) None 7 100 I)
    as (wj & w' & Ht & Htm & _ & _ & Htr).
  { cbn. lia. }
  exists wj, w'. split; [exact Ht|]. split; [exact Htm | exact Htr].
Defined.

Lemma flight_duration_witness :
  (exists w50 : World,
      ticks 50 (flyCartesian (Demo.world 1 Demo.above) Demo.higher None None
                  None None) = Some w50 /\ isFlying w50 = true) /\
  (exists w51 : World,
      ticks 51 (flyCartesian (Demo.world 1 Demo.above) Demo.higher None None
                  None None) = Some w51 /\ isFlying w51 = false).
Proof.
  pose proof (flight_duration (Demo.world 1 Demo.above) Demo.higher None None
                None None I I) as H.
  cbv zeta in H. destruct H as [Hj HN].
  split; [apply (Hj 50%nat); cbn; lia | exact HN].
Defined.

Lemma flight_holds_locks_witness :
  exists w1 : World,
    ticks 1 (flyCartesian (Demo.world 1 Demo.above) Demo.higher None None
               None None) = Some w1 /\
    holds 0%nat (planet w1) /\
    released (stopFlying w1).
Proof.
  pose proof (flight_holds_locks (Demo.world 1 Demo.above) Demo.higher None
                None None None I) as H.
  cbv zeta in H. destruct H as (_ & _ & Hj).
  destruct (Hj 1%nat) as (w1 & Ht & Hh & _ & Hr & _); [lia | cbn; lia |].
  exists w1. split; [exact Ht|]. split; [exact Hh | exact Hr].
Defined.







Lemma flight_keeps_altitude_witness :
  exists w9 : World,
    ticks 9 (flyCartesian (Demo.world 1 Demo.above) Demo.higher None None
               None None) = Some w9 /\
    getAltitude w9 = getAltitude (Demo.world 1 Demo.above).
Proof.
  destruct (flight_keeps_altitude (Demo.world 1 Demo.above) Demo.higher None
              None None None 9 I) as (w9 & Ht & Ha & _).
  { cbn. lia. }
  exists w9. split; [exact Ht | exact Ha].
Defined.

(** ** The blended ground vector *)












